(** * ImagePro: the resize pipeline of [imagepro.py]

    A shallow embedding of [parse_sizes], [validate_jpeg], [get_file_size_kb],
    [resize_image] and [cmd_resize], followed by the properties of the
    pipeline: dimension arithmetic, skip policy, naming, colour-mode
    normalisation and the effects on console and process.

    Python integers are [Z].  Python floats are IEEE 754 binary64 values,
    taken from the Standard Library's [SpecFloat] (the specification the
    primitive floats are checked against): the source computes the derived
    dimension as [int((size / orig_width) * orig_height)], that is with one
    correctly rounded division, one correctly rounded multiplication and a
    truncation, and the embedding keeps exactly these three steps. *)

From Stdlib Require Import ZArith Lia List Ascii.
From Stdlib Require Import Floats.SpecFloat Floats.PrimFloat Floats.FloatOps.
From Stdlib Require Import Uint63.
From stdpp Require Import base decidable list strings pretty.

Local Open Scope Z_scope.

(** ** Python exceptions and results *)

Inductive exn : Type :=
| ZeroDivisionError
| OverflowError
| ValueError (msg : string)
| ArgumentTypeError (msg : string)
| OSError (msg : string).

(** A pure computation that may raise. *)
Definition result (A : Type) : Type := (exn + A)%type.

Definition rbind {A B} (r : result A) (k : A -> result B) : result B :=
  match r with
  | inl e => inl e
  | inr a => k a
  end.

Declare Scope result_scope.
Delimit Scope result_scope with result.
Notation "x <-? r ; k" := (rbind r (fun x => k))
  (at level 100, r at next level, right associativity,
   format "x  <-?  r ;  '/' k") : result_scope.

(** ** Python numbers: [int / int], [float * int], [int(float)] *)

Module PyNum.

(** binary64: 53 bits of precision, exponent of the infinities 1024. *)
Definition prec : Z := 53.
Definition emax : Z := 1024.

(** An integer as an (unnormalised) exact binary value [n * 2^0]. *)
Definition exact_int (n : Z) : spec_float :=
  match n with
  | Z0 => S754_zero false
  | Zpos p => S754_finite false p 0
  | Zneg p => S754_finite true p 0
  end.

(** [a / b] on two ints (CPython [long_true_divide]): the correctly rounded
    quotient of the two integers, [ZeroDivisionError] on a zero divisor,
    [OverflowError] when the quotient is out of range.  [SFdiv] divides the
    integer mantissas themselves and rounds once. *)
Definition truediv (a b : Z) : result spec_float :=
  if b =? 0 then inl ZeroDivisionError
  else match SFdiv prec emax (exact_int a) (exact_int b) with
       | S754_infinity _ | S754_nan => inl OverflowError
       | q => inr q
       end.

(** [float(n)] ([PyLong_AsDouble]): round to nearest even, [OverflowError]
    when [n] is out of range. *)
Definition float_of_int (n : Z) : result spec_float :=
  match binary_normalize prec emax n 0 false with
  | S754_infinity _ | S754_nan => inl OverflowError
  | f => inr f
  end.

(** [x * n] with [x] a float and [n] an int: [n] is converted, then one
    IEEE multiplication (which does not raise; it may return an infinity). *)
Definition float_mul_int (x : spec_float) (n : Z) : result spec_float :=
  (y <-? float_of_int n; inr (SFmul prec emax x y))%result.

(** [int(x)]: truncation toward zero; infinities and NaN raise. *)
Definition int_of_float (x : spec_float) : result Z :=
  match x with
  | S754_zero _ => inr 0
  | S754_finite s m e =>
      let a := match e with
               | Zneg k => Z.shiftr (Zpos m) (Zpos k)
               | _ => Z.shiftl (Zpos m) e
               end in
      inr (if s then - a else a)
  | S754_infinity _ => inl OverflowError
  | S754_nan => inl (ValueError "cannot convert float NaN to integer")
  end.

(** [int((a / b) * c)], the expression of lines 84 and 90. *)
Definition scale (a b c : Z) : result Z :=
  (q <-? truediv a b;
   p <-? float_mul_int q c;
   int_of_float p)%result.

End PyNum.

(** ** The dimension computation of the loop body (lines 79-90) *)

(** What lines 79-90 leave behind: either the [continue] with the reason that
    is appended to [skipped_sizes], or the pair [(new_width, new_height)]. *)
Inductive resolved : Type :=
| Skip (reason : string)
| Dims (new_width new_height : Z).

Definition new_dimensions (dimension : string) (size orig_width orig_height : Z)
  : result resolved :=
  if decide (dimension = "width") then
    if size >? orig_width then
      inr (Skip ("original is only " +:+ pretty orig_width +:+ "px wide"))
    else
      (new_height <-? PyNum.scale size orig_width orig_height;
       inr (Dims size new_height))%result
  else
    if size >? orig_height then
      inr (Skip ("original is only " +:+ pretty orig_height +:+ "px tall"))
    else
      (new_width <-? PyNum.scale size orig_height orig_width;
       inr (Dims new_width size))%result.

(** ** The world outside the pipeline *)

(** A [pathlib.Path], by the attributes the code reads from it. *)
Record Path : Type := {
  path_str : string;   (* str(p) *)
  name : string;       (* p.name *)
  stem : string;       (* p.stem *)
  suffix : string      (* p.suffix *)
}.

(** Pillow, [pathlib], [os] and the string builtins are not part of the
    repository: they are an interface the pipeline is parameterised by. *)
Class Imaging : Type := {
  Img : Type;
  (** [Image.open(path)]: the image, or the text of the exception raised. *)
  Image_open : Path -> string + Img;
  (** What Pillow writes on the standard error stream while [Image.open],
      [img.resize] and [img.save] run: warnings, such as the
      [DecompressionBombWarning] of [Image.open] on an image of more than
      89478485 pixels.  A warning is shown once, so the lines written depend
      on the lines libraries have written before, the last argument. *)
  open_warnings : Path -> list string -> list string;
  resize_warnings : Img -> Z * Z -> list string -> list string;
  save_warnings : Img -> string -> Z -> list string -> list string;
  (** [img.size] and [img.mode]. *)
  img_size : Img -> Z * Z;
  img_mode : Img -> string;
  (** [img.resize((w, h), Image.Resampling.LANCZOS)]. *)
  img_resize : Img -> Z * Z -> result Img;
  (** [Image.new(mode, size, color)]. *)
  Image_new : string -> Z * Z -> Z * Z * Z -> Img;
  (** [img.convert(mode)]. *)
  img_convert : Img -> string -> Img;
  (** [img.split()[-1]], the last band. *)
  img_last_band : Img -> Img;
  (** [background.paste(im, mask=mask)]: the background after the call. *)
  img_paste : Img -> Img -> option Img -> Img;
  (** [img.save(path, 'JPEG', quality=q, optimize=True)]: the number of bytes
      of the file written, or the exception raised. *)
  img_save_jpeg : Img -> string -> Z -> result Z;
  (** [Path(dir).mkdir(parents=True, exist_ok=True)]: the exception, if any. *)
  path_mkdir : string -> option exn;
  (** [str(Path(dir) / name)]. *)
  path_join : string -> string -> string;
  (** [Path(s)] and [p.exists()]. *)
  path_of : string -> Path;
  path_exists : Path -> bool;
  (** [int(s)] on a string and [s.strip()]. *)
  int_of_str : string -> result Z;
  str_strip : string -> string;
  (** [f"{x:.0f}"] on a float. *)
  format_0f : spec_float -> string
}.

(** Console, output directory and process state. *)
Record world : Type := {
  stdout : list string;              (* lines printed, oldest first *)
  stderr : list string;              (* every line on the standard error stream *)
  dirs : list string;                (* directories made *)
  files : list (string * Z);         (* files written: path, bytes; oldest first *)
  warnings : list string             (* the lines of [stderr] that libraries wrote *)
}.

Definition empty_world : world :=
  {| stdout := []; stderr := []; dirs := []; files := []; warnings := [] |}.

(** How a call ends: it returns, an exception escapes, or [sys.exit]. *)
Inductive outcome (A : Type) : Type :=
| Return (a : A)
| Raise (e : exn)
| SysExit (code : Z).
Arguments Return {A} a.
Arguments Raise {A} e.
Arguments SysExit {A} code.

Definition M (A : Type) : Type := world -> outcome A * world.

Definition ret {A} (a : A) : M A := fun w => (Return a, w).
Definition raise {A} (e : exn) : M A := fun w => (Raise e, w).
Definition sys_exit {A} (code : Z) : M A := fun w => (SysExit code, w).
Definition bind {A B} (m : M A) (k : A -> M B) : M B :=
  fun w =>
    match m w with
    | (Return a, w') => k a w'
    | (Raise e, w') => (Raise e, w')
    | (SysExit c, w') => (SysExit c, w')
    end.
Definition lift {A} (r : result A) : M A :=
  match r with
  | inl e => raise e
  | inr a => ret a
  end.

Declare Scope io_scope.
Delimit Scope io_scope with io.
Notation "x <- m ; k" := (bind m (fun x => k))
  (at level 100, m at next level, right associativity,
   format "x  <-  m ;  '/' k") : io_scope.
Notation "m ;; k" := (bind m (fun _ => k))
  (at level 100, right associativity, format "m ;;  '/' k") : io_scope.

Definition print (line : string) : M unit :=
  fun w => (Return tt, {| stdout := stdout w ++ [line]; stderr := stderr w;
                          dirs := dirs w; files := files w;
                          warnings := warnings w |}).
Definition print_stderr (line : string) : M unit :=
  fun w => (Return tt, {| stdout := stdout w; stderr := stderr w ++ [line];
                          dirs := dirs w; files := files w;
                          warnings := warnings w |}).
Definition made_dir (d : string) : M unit :=
  fun w => (Return tt, {| stdout := stdout w; stderr := stderr w;
                          dirs := dirs w ++ [d]; files := files w;
                          warnings := warnings w |}).
Definition wrote_file (p : string) (bytes : Z) : M unit :=
  fun w => (Return tt, {| stdout := stdout w; stderr := stderr w;
                          dirs := dirs w; files := files w ++ [(p, bytes)];
                          warnings := warnings w |}).

(** The world after a library call wrote its warnings: the lines go to the
    standard error stream, and are remembered as written by a library. *)
Definition warned (w : world) (lines : list string -> list string) : world :=
  {| stdout := stdout w; stderr := stderr w ++ lines (warnings w);
     dirs := dirs w; files := files w;
     warnings := warnings w ++ lines (warnings w) |}.
Definition lib_warns (lines : list string -> list string) : M unit :=
  fun w => (Return tt, warned w lines).

(** [os.path.getsize(p)]: the size of the latest file written at [p]. *)
Fixpoint latest (p : string) (fs : list (string * Z)) : option Z :=
  match fs with
  | [] => None
  | (p', n) :: fs' =>
      match latest p fs' with
      | Some m => Some m
      | None => if decide (p' = p) then Some n else None
      end
  end.
Definition getsize (p : string) : M Z :=
  fun w =>
    match latest p (files w) with
    | Some n => (Return n, w)
    | None => (Raise (OSError "No such file or directory"), w)
    end.

(** ** [parse_sizes], [validate_jpeg], [get_file_size_kb] *)

(** [s.split(c)] for a one-character separator. *)
Fixpoint split_on (c : ascii) (s : string) : list string :=
  match s with
  | EmptyString => [EmptyString]
  | String a s' =>
      if decide (a = c) then EmptyString :: split_on c s'
      else match split_on c s' with
           | [] => [String a EmptyString]
           | x :: xs => String a x :: xs
           end
  end.

Fixpoint mapM_result {A B} (f : A -> result B) (l : list A) : result (list B) :=
  match l with
  | [] => inr []
  | a :: l' => (b <-? f a; bs <-? mapM_result f l'; inr (b :: bs))%result
  end.

(** [any(s <= 0 for s in sizes)]. *)
Definition any_nonpositive (sizes : list Z) : bool :=
  existsb (fun s => s <=? 0) sizes.

Definition valid_extensions : list string := [".jpg"; ".jpeg"; ".JPG"; ".JPEG"].

Definition validate_jpeg (filepath : Path) : bool :=
  if decide (suffix filepath ∉ valid_extensions) then false else true.

Section Pipeline.
Context `{PIL : Imaging}.

Definition parse_sizes (size_str : string) : result (list Z) :=
  match (sizes <-? mapM_result (fun s => int_of_str (str_strip s))
                               (split_on ","%char size_str);
         if any_nonpositive sizes
         then inl (ValueError "Sizes must be positive integers")
         else inr sizes)%result
  with
  | inl (ValueError e) => inl (ArgumentTypeError ("Invalid size format: " +:+ e))
  | r => r
  end.

Definition get_file_size_kb (filepath : string) : M spec_float :=
  (n <- getsize filepath;
   lift (PyNum.truediv n 1024))%io.

(** ** [resize_image] *)

(** One entry of [created_files] (the dict of lines 116-122). *)
Record created_file : Type := {
  path : string;
  filename : string;
  width : Z;
  height : Z;
  size_kb : spec_float
}.

(** Lines 100-108: flatten transparency onto white, or convert to RGB. *)
Definition normalize_mode (resized_img : Img) : Img :=
  if decide (img_mode resized_img ∈ ["RGBA"; "LA"; "P"]) then
    let background := Image_new "RGB" (img_size resized_img) (255, 255, 255) in
    let resized_img :=
      if decide (img_mode resized_img = "P")
      then img_convert resized_img "RGBA" else resized_img in
    img_paste background resized_img
      (if decide (img_mode resized_img ∈ ["RGBA"; "LA"])
       then Some (img_last_band resized_img) else None)
  else if decide (img_mode resized_img ≠ "RGB") then
    img_convert resized_img "RGB"
  else resized_img.

(** [f"{base_name}_{size}{extension}"] (line 96). *)
Definition output_name (base_name : string) (size : Z) (extension : string)
  : string :=
  base_name +:+ "_" +:+ pretty size +:+ extension.

Section Loop.
(** What the loop reads from the enclosing call. *)
Variables (img : Img) (orig_width orig_height : Z).
Variables (output_dir base_name extension dimension : string).
Variable quality : Z.

(** One iteration (lines 78-122): the entry appended to [skipped_sizes]
    on [continue], or the entry appended to [created_files]. *)
Definition resize_one (size : Z) : M ((Z * string) + created_file) :=
  (r <- lift (new_dimensions dimension size orig_width orig_height);
   match r with
   | Skip reason => ret (inl (size, reason))
   | Dims new_width new_height =>
       lib_warns (resize_warnings img (new_width, new_height));;
       resized_img <- lift (img_resize img (new_width, new_height));
       let output_filename := output_name base_name size extension in
       let output_path := path_join output_dir output_filename in
       let resized_img := normalize_mode resized_img in
       lib_warns (save_warnings resized_img output_path quality);;
       bytes <- lift (img_save_jpeg resized_img output_path quality);
       wrote_file output_path bytes;;
       file_size <- get_file_size_kb output_path;
       ret (inr {| path := output_path;
                   filename := output_filename;
                   width := new_width;
                   height := new_height;
                   size_kb := file_size |})
   end)%io.

(** The [for] loop, with the two lists it appends to. *)
Fixpoint resize_loop (sizes : list Z)
    (created_files : list created_file) (skipped_sizes : list (Z * string))
  : M (list created_file * list (Z * string)) :=
  match sizes with
  | [] => ret (created_files, skipped_sizes)
  | size :: rest =>
      (r <- resize_one size;
       match r with
       | inl s => resize_loop rest created_files (skipped_sizes ++ [s])
       | inr c => resize_loop rest (created_files ++ [c]) skipped_sizes
       end)%io
  end.
End Loop.

(** [dimension] defaults to ['width'] and [quality] to [90] in the source;
    here both are always passed. *)
Definition resize_image (input_path : Path) (output_dir : string)
    (sizes : list Z) (dimension : string) (quality : Z)
  : M (list created_file * list (Z * string)) :=
  (lib_warns (open_warnings input_path);;
   match Image_open input_path with
   | inl e =>
       print_stderr ("Error: Cannot read image: " +:+ path_str input_path);;
       print_stderr ("Details: " +:+ e);;
       sys_exit 4
   | inr img =>
       let '(orig_width, orig_height) := img_size img in
       match path_mkdir output_dir with
       | Some e => raise e
       | None => made_dir output_dir
       end;;
       resize_loop img orig_width orig_height output_dir
         (stem input_path) (suffix input_path) dimension quality
         sizes [] []
   end)%io.
End Pipeline.

(** ** [cmd_resize] *)

(** The [argparse] namespace of the [resize] subcommand. *)
Record Args : Type := {
  arg_input : string;
  arg_output : string;
  arg_width : option string;
  arg_height : option string;
  arg_quality : Z
}.

(** Truth value of an optional string: [None] and [''] are false. *)
Definition truthy (o : option string) : bool :=
  match o with
  | Some (String _ _) => true
  | _ => false
  end.

Section Command.
Context `{PIL : Imaging}.

Definition created_line (file_info : created_file) : string :=
  "✓ Created: " +:+ filename file_info +:+ " ("
    +:+ pretty (width file_info) +:+ "x" +:+ pretty (height file_info) +:+ ", "
    +:+ format_0f (size_kb file_info) +:+ " KB)".

Definition skipped_line (s : Z * string) : string :=
  "⚠ Skipped " +:+ pretty (fst s) +:+ "px: " +:+ snd s.

Fixpoint print_all (lines : list string) : M unit :=
  match lines with
  | [] => ret tt
  | l :: ls => (print l;; print_all ls)%io
  end.

(** Lines 142-154: the axis and the parsed sizes. *)
Definition dimension_and_sizes (args : Args) : M (string * list Z) :=
  if truthy (arg_width args) && truthy (arg_height args) then
    (print_stderr "Error: Cannot specify both --width and --height";;
     sys_exit 2)%io
  else if truthy (arg_width args) then
    (sizes <- lift (parse_sizes (default "" (arg_width args)));
     ret ("width", sizes))%io
  else if truthy (arg_height args) then
    (sizes <- lift (parse_sizes (default "" (arg_height args)));
     ret ("height", sizes))%io
  else
    (print_stderr "Error: Must specify either --width or --height";;
     sys_exit 2)%io.

Definition cmd_resize (args : Args) : M unit :=
  let input_path := path_of (arg_input args) in
  if negb (path_exists input_path) then
    (print_stderr ("Error: File not found: " +:+ arg_input args);;
     sys_exit 3)%io
  else if negb (validate_jpeg input_path) then
    (print_stderr "Error: Unsupported format. Version 1.0 supports JPEG only.";;
     print_stderr "Supported extensions: .jpg, .jpeg, .JPG, .JPEG";;
     sys_exit 1)%io
  else
    (ds <- dimension_and_sizes args;
     let '(dimension, sizes) := ds in
     if negb ((1 <=? arg_quality args) && (arg_quality args <=? 100)) then
       print_stderr "Error: Quality must be between 1-100";;
       sys_exit 2
     else
       lib_warns (open_warnings input_path);;
       match Image_open input_path with
       | inl _ =>
           print_stderr ("Error: Cannot read image: " +:+ path_str input_path);;
           sys_exit 4
       | inr img =>
           let '(orig_width, orig_height) := img_size img in
           print ("Processing: " +:+ name input_path +:+ " ("
                    +:+ pretty orig_width +:+ "x" +:+ pretty orig_height +:+ ")");;
           print ("Output directory: " +:+ arg_output args);;
           print "";;
           r <- resize_image input_path (arg_output args) sizes dimension
                             (arg_quality args);
           let '(created_files, skipped_sizes) := r in
           print_all (map created_line created_files);;
           match skipped_sizes with
           | [] => ret tt
           | _ => print "";; print_all (map skipped_line skipped_sizes)
           end;;
           print "";;
           match created_files with
           | _ :: _ =>
               print ("Successfully created "
                        +:+ pretty (Z.of_nat (length created_files))
                        +:+ " image(s) from " +:+ name input_path)
           | [] =>
               print "Warning: No images created (all sizes would require upscaling)";;
               sys_exit 0
           end
       end)%io.
End Command.

(** ** A small stand-in for the external libraries

    Used to run the pipeline on concrete inputs.  An image is its mode and
    size; the resampler refuses empty images as Pillow does; the encoder writes
    one byte per pixel; opening an image of more than 89478485 pixels writes
    one warning line, once. *)
Module Demo.

Record image : Type := { im_mode : string; im_size : Z * Z }.

Definition resize (im : image) (size : Z * Z) : result image :=
  if (fst size <? 1) || (snd size <? 1)
  then inl (ValueError "height and width must be > 0")
  else inr {| im_mode := im_mode im; im_size := size |}.

Definition digit_of (a : ascii) : option Z :=
  let n := Z.of_N (N_of_ascii a) in
  if (48 <=? n) && (n <=? 57) then Some (n - 48) else None.

Fixpoint digits_value (s : string) (acc : Z) : option Z :=
  match s with
  | EmptyString => Some acc
  | String a s' =>
      match digit_of a with
      | Some d => digits_value s' (10 * acc + d)
      | None => None
      end
  end.

Definition int_literal (s : string) : result Z :=
  let bad := inl (ValueError ("invalid literal for int() with base 10: '" +:+ s +:+ "'")) in
  match s with
  | EmptyString => bad
  | String "-" (String a s') =>
      match digits_value (String a s') 0 with Some n => inr (- n) | None => bad end
  | String "+" (String a s') =>
      match digits_value (String a s') 0 with Some n => inr n | None => bad end
  | _ => match digits_value s 0 with Some n => inr n | None => bad end
  end.

Fixpoint lstrip (s : string) : string :=
  match s with
  | String " " s' => lstrip s'
  | _ => s
  end.
Definition strip (s : string) : string :=
  String.rev (lstrip (String.rev (lstrip s))).

(** Round half to even, then print. *)
Definition fmt_0f (x : spec_float) : string :=
  match x with
  | S754_finite s m (Zneg k) =>
      let q := Z.shiftr (Zpos m) (Zpos k) in
      let r := Zpos m - Z.shiftl q (Zpos k) in
      let q' := match 2 * r ?= Z.shiftl 1 (Zpos k) with
                | Lt => q
                | Eq => if Z.even q then q else q + 1
                | Gt => q + 1
                end in
      (if s then "-" else "") +:+ pretty q'
  | S754_finite s m e => (if s then "-" else "") +:+ pretty (Z.shiftl (Zpos m) e)
  | S754_zero s => (if s then "-0" else "0")
  | S754_infinity s => (if s then "-inf" else "inf")
  | S754_nan => "nan"
  end.

(** Stem and suffix of a plain file name: the suffix starts at the last dot,
    unless that dot is the first character. *)
Fixpoint split_ext (s : string) : string * string :=
  match s with
  | EmptyString => (EmptyString, EmptyString)
  | String a s' =>
      let '(st, su) := split_ext s' in
      match su with
      | EmptyString =>
          if decide (a = "."%char) then (EmptyString, String a s')
          else (String a st, EmptyString)
      | _ => (String a st, su)
      end
  end.

Definition parse_path (s : string) : Path :=
  match split_ext s with
  | (EmptyString, _) => {| path_str := s; name := s; stem := s; suffix := "" |}
  | (st, su) => {| path_str := s; name := s; stem := st; suffix := su |}
  end.

(** The warning of [Image.open] on a large image, shown once. *)
Definition bomb_warning (source : string + image) (seen : list string)
  : list string :=
  match source with
  | inl _ => []
  | inr im =>
      let pixels := fst (im_size im) * snd (im_size im) in
      let line := "DecompressionBombWarning: Image size (" +:+ pretty pixels
                    +:+ " pixels) exceeds limit of 89478485 pixels, "
                    +:+ "could be decompression bomb DOS attack." in
      if (pixels <=? 89478485) || bool_decide (line ∈ seen) then [] else [line]
  end.

(** The libraries around one source file: [source] is what decoding it
    gives. *)
Definition imaging (source : string + image) : Imaging := {|
  Img := image;
  Image_open := fun _ => source;
  open_warnings := fun _ => bomb_warning source;
  resize_warnings := fun _ _ _ => [];
  save_warnings := fun _ _ _ _ => [];
  img_size := im_size;
  img_mode := im_mode;
  img_resize := resize;
  Image_new := fun mode size _ => {| im_mode := mode; im_size := size |};
  img_convert := fun im mode => {| im_mode := mode; im_size := im_size im |};
  img_last_band := fun im => {| im_mode := "L"; im_size := im_size im |};
  img_paste := fun background _ _ => background;
  img_save_jpeg := fun im _ _ => inr (fst (im_size im) * snd (im_size im));
  path_mkdir := fun _ => None;
  path_join := fun d f => d +:+ "/" +:+ f;
  path_of := parse_path;
  path_exists := fun _ => true;
  int_of_str := int_literal;
  str_strip := strip;
  format_0f := fmt_0f
|}.

Definition photo : Path := Eval cbv in parse_path "photo.jpg".

Definition rgb (w h : Z) : string + image :=
  inr {| im_mode := "RGB"; im_size := (w, h) |}.

(** [resize_image] on [photo], from an empty world. *)
Definition run (source : string + image) (sizes : list Z) (dimension : string)
  : outcome (list created_file * list (Z * string)) * world :=
  @resize_image (imaging source) photo "out" sizes dimension 90 empty_world.

End Demo.

(** ** The axis, the limit and the skip decision *)

(** The original dimension the target sizes are compared with. *)
Definition axis_limit (dimension : string) (orig_width orig_height : Z) : Z :=
  if decide (dimension = "width") then orig_width else orig_height.

(** The other original dimension. *)
Definition axis_other (dimension : string) (orig_width orig_height : Z) : Z :=
  if decide (dimension = "width") then orig_height else orig_width.

(** The reason recorded with a skipped size. *)
Definition skip_reason (dimension : string) (orig_width orig_height : Z) : string :=
  if decide (dimension = "width")
  then "original is only " +:+ pretty orig_width +:+ "px wide"
  else "original is only " +:+ pretty orig_height +:+ "px tall".

(** The output dimension on the chosen axis, and the derived one. *)
Definition on_axis (dimension : string) (w h : Z) : Z :=
  if decide (dimension = "width") then w else h.
Definition off_axis (dimension : string) (w h : Z) : Z :=
  if decide (dimension = "width") then h else w.

Definition feasible (limit : Z) (size : Z) : bool := negb (size >? limit).
Definition infeasible (limit : Z) (size : Z) : bool := size >? limit.


(** What a created entry records about the size it was made for. *)
Definition made_for `{PIL : Imaging}
    (output_dir base_name extension dimension : string)
    (orig_width orig_height : Z) (size : Z) (c : created_file) : Prop :=
  on_axis dimension (width c) (height c) = size
  /\ filename c = output_name base_name size extension
  /\ path c = path_join output_dir (filename c)
  /\ new_dimensions dimension size orig_width orig_height
     = inr (Dims (width c) (height c)).

(** ** Rounding, stated on integers *)

(** Where [N / D] lies between two consecutive integers: on the lower one,
    or below, at or above the midpoint. *)
Definition loc_ratio (N D : Z) : location :=
  if N mod D =? 0 then loc_Exact else loc_Inexact (2 * (N mod D) ?= D).

(** The quotient [N / D] with its round and sticky bits. *)
Definition rec_ratio (N D : Z) : shr_record :=
  shr_record_of_loc (N / D) (loc_ratio N D).

(** [N / D] rounded to the nearest integer, ties to even. *)
Definition rne (N D : Z) : Z := round_nearest_even (N / D) (loc_ratio N D).

Definition two52 : Z := 4503599627370496.
Definition two53 : Z := 9007199254740992.

(** ** Reading the results *)

(** The size an entry of [created_files] was made for: its dimension on the
    chosen axis. *)
Definition target_of (dimension : string) (c : created_file) : Z :=
  on_axis dimension (width c) (height c).

(** The text the command line asks sizes from (lines 143-151): [--width]
    alone or [--height] alone, with the axis it selects. *)
Definition requested_sizes (args : Args) : option (string * string) :=
  if truthy (arg_width args) && truthy (arg_height args) then None
  else if truthy (arg_width args) then Some ("width", default "" (arg_width args))
  else if truthy (arg_height args) then Some ("height", default "" (arg_height args))
  else None.

(** What the pipeline relies on from Pillow: the mode and size of the images
    that [Image.new], [convert] and [paste] give back. *)
Class PillowModes (PIL : Imaging) : Prop := {
  new_mode : forall mode size color, img_mode (Image_new mode size color) = mode;
  new_size : forall mode size color, img_size (Image_new mode size color) = size;
  convert_mode : forall im mode, img_mode (img_convert im mode) = mode;
  convert_size : forall im mode, img_size (img_convert im mode) = img_size im;
  paste_mode : forall bg im mask, img_mode (img_paste bg im mask) = img_mode bg;
  paste_size : forall bg im mask, img_size (img_paste bg im mask) = img_size bg
}.

(** ** The same product on the machine's numbers *)

(** [(a / b) * c] computed by the processor's binary64 division and
    multiplication, for operands below [2^63], to compare the embedding
    with. *)
Definition machine_product (a b c : Z) : spec_float :=
  Prim2SF (PrimFloat.mul
             (PrimFloat.div (PrimFloat.of_uint63 (Uint63.of_Z a))
                            (PrimFloat.of_uint63 (Uint63.of_Z b)))
             (PrimFloat.of_uint63 (Uint63.of_Z c))).

(** The product before truncation, as the embedding computes it. *)
Definition model_product (a b c : Z) : result spec_float :=
  (q <-? PyNum.truediv a b; PyNum.float_mul_int q c)%result.

(** ** Reading the console *)

(** The world after more lines were printed on the standard output. *)
Definition with_stdout (w : world) (lines : list string) : world :=
  {| stdout := stdout w ++ lines; stderr := stderr w;
     dirs := dirs w; files := files w; warnings := warnings w |}.

(** The world after more lines were printed on the standard error stream. *)
Definition with_stderr (w : world) (lines : list string) : world :=
  {| stdout := stdout w; stderr := stderr w ++ lines;
     dirs := dirs w; files := files w; warnings := warnings w |}.

(** From [w] to [w'] the program itself printed nothing on the standard
    error stream: the lines added there are lines that libraries wrote. *)
Definition only_libraries_wrote (w w' : world) : Prop :=
  exists lines,
    stderr w' = stderr w ++ lines /\ warnings w' = warnings w ++ lines.

(** The three lines [cmd_resize] prints before it calls [resize_image]
    (lines 170-172). *)
Definition header_lines (input_path : Path) (output : string)
    (orig_width orig_height : Z) : list string :=
  ["Processing: " +:+ name input_path +:+ " ("
     +:+ pretty orig_width +:+ "x" +:+ pretty orig_height +:+ ")";
   "Output directory: " +:+ output;
   ""].

(** The lines [cmd_resize] prints after [resize_image] has returned (lines
    184-200): one per created file, a blank line and one line per skipped
    size if any size was skipped, a blank line, the summary. *)
Definition report_lines `{PIL : Imaging} (input_path : Path)
    (created_files : list created_file) (skipped_sizes : list (Z * string))
  : list string :=
  map created_line created_files
  ++ match skipped_sizes with
     | [] => []
     | _ => "" :: map skipped_line skipped_sizes
     end
  ++ [""]
  ++ [match created_files with
      | _ :: _ => "Successfully created "
                    +:+ pretty (Z.of_nat (length created_files))
                    +:+ " image(s) from " +:+ name input_path
      | [] => "Warning: No images created (all sizes would require upscaling)"
      end].

(** ** Reading the size list *)

(** How many times a character occurs in a string. *)
Fixpoint count_char (c : ascii) (s : string) : nat :=
  match s with
  | EmptyString => 0
  | String a s' => (if decide (a = c) then 1 else 0) + count_char c s'
  end.

(** The exception [parse_sizes] lets out for one raised inside its [try]
    block: a [ValueError] is wrapped, anything else passes. *)
Definition wrapped (e : exn) : exn :=
  match e with
  | ValueError msg => ArgumentTypeError ("Invalid size format: " +:+ msg)
  | _ => e
  end.

(** ** Binary64 rounding

    What [SpecFloat] computes for the division, the conversion and the
    multiplication of the loop body, on positive operands in the normal
    range. *)


Lemma digits2_pos_size p : digits2_pos p = Pos.size p.
Proof. induction p; simpl; congruence. Qed.

Lemma Zdigits2_bounds m :
  0 < m -> 2 ^ (Zdigits2 m - 1) <= m < 2 ^ Zdigits2 m.
Proof.
  destruct m as [| p | p]; try lia. intros _. simpl.
  rewrite digits2_pos_size.
  pose proof (Pos.size_gt p) as Hgt. pose proof (Pos.size_le p) as Hle.
  assert (H2 : Z.pos (2 ^ Pos.size p) = 2 ^ Z.pos (Pos.size p))
    by (rewrite Pos2Z.inj_pow; reflexivity).
  split.
  - assert (2 ^ Z.pos (Pos.size p) = 2 * 2 ^ (Z.pos (Pos.size p) - 1)).
    { rewrite <- Z.pow_succ_r by lia. f_equal. lia. }
    lia.
  - lia.
Qed.

Lemma Zdigits2_unique m d :
  2 ^ (d - 1) <= m < 2 ^ d -> 0 < d -> Zdigits2 m = d.
Proof.
  intros [Hlo Hhi] Hd.
  assert (Hm : 0 < m) by (pose proof (Z.pow_pos_nonneg 2 (d - 1)); lia).
  pose proof (Zdigits2_bounds m Hm) as [Hlo' Hhi'].
  assert (Hpos : 0 < Zdigits2 m) by (destruct m; simpl; lia).
  destruct (Z.lt_trichotomy (Zdigits2 m) d) as [Hlt | [Heq | Hgt]]; [| exact Heq |].
  - assert (2 ^ Zdigits2 m <= 2 ^ (d - 1)) by (apply Z.pow_le_mono_r; lia). lia.
  - assert (2 ^ d <= 2 ^ (Zdigits2 m - 1)) by (apply Z.pow_le_mono_r; lia). lia.
Qed.

Lemma loc_of_rec_ratio N D : loc_of_shr_record (rec_ratio N D) = loc_ratio N D.
Proof. unfold rec_ratio. destruct (loc_ratio N D) as [| []]; reflexivity. Qed.

Lemma shr_m_rec_ratio N D : shr_m (rec_ratio N D) = N / D.
Proof. unfold rec_ratio. destruct (loc_ratio N D) as [| []]; reflexivity. Qed.

Lemma shr_1_nonneg m r s :
  0 <= m ->
  shr_1 {| shr_m := m; shr_r := r; shr_s := s |}
  = {| shr_m := m / 2; shr_r := Z.odd m; shr_s := r || s |}.
Proof.
  intros Hm. destruct m as [| [p | p |] | p]; try lia; simpl; try reflexivity.
  - f_equal. change (Z.pos p~1) with (1 + 2 * Z.pos p).
    rewrite Z.add_comm, Z.mul_comm, Z.div_add_l by lia. reflexivity.
  - f_equal. change (Z.pos p~0) with (2 * Z.pos p).
    rewrite Z.mul_comm, Z.div_mul by lia. reflexivity.
Qed.

Lemma shr_1_ratio N D :
  0 <= N -> 0 < D -> shr_1 (rec_ratio N D) = rec_ratio N (2 * D).
Proof.
  intros HN HD.
  pose proof (Z.div_mod N D ltac:(lia)) as E1.
  pose proof (Z.mod_pos_bound N D HD) as B1.
  pose proof (Z.div_pos N D HN HD) as Hq.
  pose proof (Z.div_mod (N / D) 2 ltac:(lia)) as E2.
  pose proof (Z.mod_pos_bound (N / D) 2 ltac:(lia)) as B2.
  set (q := N / D) in *. set (r := N mod D) in *.
  set (q2 := q / 2) in *. set (b := q mod 2) in *.
  assert (Hdiv : N / (2 * D) = q2).
  { symmetry. apply (Z.div_unique_pos N (2 * D) q2 (b * D + r)); nia. }
  assert (Hmod : N mod (2 * D) = b * D + r).
  { symmetry. apply (Z.mod_unique_pos N (2 * D) q2 (b * D + r)); nia. }
  assert (Hodd : Z.odd q = if b =? 0 then false else true).
  { rewrite Zodd_mod. fold b. destruct (Z.eqb_spec b 0) as [-> | ?]; [reflexivity |].
    replace b with 1 by lia. reflexivity. }
  unfold rec_ratio, loc_ratio. rewrite Hdiv, Hmod. fold q r.
  destruct (Z.eqb_spec r 0) as [Hr | Hr].
  - cbn [shr_record_of_loc]. rewrite shr_1_nonneg by lia. fold q2. rewrite Hodd.
    destruct (Z.eqb_spec b 0) as [Hb | Hb].
    + rewrite Hb, Hr. reflexivity.
    + replace b with 1 by lia. rewrite Hr.
      replace (1 * D + 0 =? 0) with false by (symmetry; apply Z.eqb_neq; lia).
      replace (2 * (1 * D + 0) ?= 2 * D) with Eq by (symmetry; apply Z.compare_eq_iff; lia).
      reflexivity.
  - assert (Hcases : shr_1 (shr_record_of_loc q (loc_Inexact (2 * r ?= D)))
                     = {| shr_m := q2; shr_r := Z.odd q; shr_s := true |}).
    { destruct (2 * r ?= D); simpl shr_record_of_loc;
        rewrite shr_1_nonneg by lia; fold q2; f_equal;
        destruct (Z.odd q); reflexivity. }
    rewrite Hcases, Hodd.
    replace (b * D + r =? 0) with false by (symmetry; apply Z.eqb_neq; nia).
    destruct (Z.eqb_spec b 0) as [Hb | Hb].
    + rewrite Hb. replace (2 * (0 * D + r) ?= 2 * D) with Lt
        by (symmetry; apply Z.compare_lt_iff; lia).
      reflexivity.
    + replace b with 1 by lia.
      replace (2 * (1 * D + r) ?= 2 * D) with Gt
        by (symmetry; apply Z.compare_gt_iff; lia).
      reflexivity.
Qed.

Lemma pow2_xO p : 2 ^ Z.pos p~0 = 2 ^ Z.pos p * 2 ^ Z.pos p.
Proof.
  replace (Z.pos p~0) with (Z.pos p + Z.pos p) by lia.
  apply Z.pow_add_r; lia.
Qed.

Lemma pow2_xI p : 2 ^ Z.pos p~1 = 2 * (2 ^ Z.pos p * 2 ^ Z.pos p).
Proof.
  replace (Z.pos p~1) with (Z.pos p~0 + 1) by lia.
  rewrite Z.pow_add_r, Z.pow_1_r, pow2_xO by lia. lia.
Qed.

Lemma iter_pos_shr_1 p : forall N D,
  0 <= N -> 0 < D ->
  SpecFloat.iter_pos shr_1 p (rec_ratio N D) = rec_ratio N (D * 2 ^ Z.pos p).
Proof.
  induction p as [p IH | p IH |]; intros N D HN HD; simpl SpecFloat.iter_pos.
  - assert (0 < 2 ^ Z.pos p) by (apply Z.pow_pos_nonneg; lia).
    rewrite shr_1_ratio, IH, IH by nia.
    f_equal. rewrite pow2_xI. lia.
  - assert (0 < 2 ^ Z.pos p) by (apply Z.pow_pos_nonneg; lia).
    rewrite IH, IH by nia.
    f_equal. rewrite pow2_xO. lia.
  - rewrite shr_1_ratio by lia. f_equal. change (2 ^ 1) with 2. lia.
Qed.

Lemma rne_bounds N D :
  0 <= N -> 0 < D ->
  N / D <= rne N D <= N / D + 1 /\ - D <= 2 * (rne N D * D - N) <= D.
Proof.
  intros HN HD.
  pose proof (Z.div_mod N D ltac:(lia)) as E.
  pose proof (Z.mod_pos_bound N D HD) as B.
  unfold rne, loc_ratio.
  set (q := N / D) in *. set (r := N mod D) in *.
  destruct (Z.eqb_spec r 0) as [Hr | Hr]; cbn [round_nearest_even]; [nia |].
  destruct (Z.compare_spec (2 * r) D) as [Hc | Hc | Hc]; cbn [round_nearest_even].
  - destruct (Z.even q); nia.
  - nia.
  - nia.
Qed.

Lemma shr_ratio N D e k :
  0 <= N -> 0 < D -> 0 <= k ->
  shr (rec_ratio N D) e k = (rec_ratio N (D * 2 ^ k), e + k).
Proof.
  intros HN HD Hk. destruct k as [| p | p]; [| | lia]; cbn [shr].
  - rewrite Z.pow_0_r, Z.mul_1_r, Z.add_0_r. reflexivity.
  - rewrite iter_pos_shr_1 by lia. reflexivity.
Qed.

Lemma fexp_normal e : -1074 <= e - 53 -> fexp 53 1024 e = e - 53.
Proof. intros H. unfold fexp, emin. lia. Qed.

Lemma two52_eq : two52 = 2 ^ 52.
Proof. reflexivity. Qed.
Lemma two53_eq : two53 = 2 ^ 53.
Proof. reflexivity. Qed.

(** Rounding in the normal range: the quotient [N / D], at least 53 bits
    long, is shifted down to 53 bits and rounded to nearest even; a carry
    into the 54th bit costs one more shift. *)
Lemma binary_round_aux_normal s N D ex :
  0 <= N -> 0 < D ->
  53 <= Zdigits2 (N / D) ->
  -1074 <= ex + Zdigits2 (N / D) - 53 < 971 ->
  let k := Zdigits2 (N / D) - 53 in
  let r := rne N (D * 2 ^ k) in
  two52 <= N / (D * 2 ^ k) < two53
  /\ binary_round_aux 53 1024 s (N / D) ex (loc_ratio N D)
     = if r <? two53 then S754_finite s (Z.to_pos r) (ex + k)
       else S754_finite s (Z.to_pos two52) (ex + k + 1).
Proof.
  intros HN HD Hd Hex k r.
  set (d := Zdigits2 (N / D)) in *.
  assert (Hq : 0 < N / D).
  { destruct (N / D) as [| q | q] eqn:E; [cbn in d; lia | lia |].
    pose proof (Z.div_pos N D HN HD). lia. }
  pose proof (Zdigits2_bounds (N / D) Hq) as [Hlo Hhi]. fold d in Hlo, Hhi.
  assert (Hk : 0 <= k) by (unfold k; lia).
  assert (H2k : 0 < 2 ^ k) by (apply Z.pow_pos_nonneg; lia).
  assert (Hd1 : 2 ^ (d - 1) = 2 ^ 52 * 2 ^ k).
  { rewrite <- Z.pow_add_r by lia. f_equal. unfold k. lia. }
  assert (Hd2 : 2 ^ d = 2 ^ 53 * 2 ^ k).
  { rewrite <- Z.pow_add_r by lia. f_equal. unfold k. lia. }
  set (D' := D * 2 ^ k) in *.
  assert (HD' : 0 < D') by (unfold D'; nia).
  rewrite <- two52_eq in Hd1. rewrite <- two53_eq in Hd2.
  assert (Hm1 : two52 <= N / D' < two53).
  { unfold D'. rewrite <- Z.div_div by lia. split.
    - apply Z.div_le_lower_bound; lia.
    - apply Z.div_lt_upper_bound; lia. }
  split; [exact Hm1 |].
  pose proof (rne_bounds N D' HN HD') as [[Hr1 Hr2] _]. fold r in Hr1, Hr2.
  unfold binary_round_aux, shr_fexp.
  change (shr_record_of_loc (N / D) (loc_ratio N D)) with (rec_ratio N D).
  fold d. rewrite fexp_normal by lia.
  replace (d + ex - 53 - ex) with k by (unfold k; lia).
  rewrite shr_ratio by lia. fold D'.
  rewrite loc_of_rec_ratio, shr_m_rec_ratio.
  change (round_nearest_even (N / D') (loc_ratio N D')) with r.
  unfold two52, two53 in *.
  destruct (Z.ltb_spec r 9007199254740992) as [Hnov | Hov].
  - destruct r as [| m | m] eqn:Er; try lia.
    rewrite (Zdigits2_unique (Z.pos m) 53)
      by (change (2 ^ (53 - 1)) with 4503599627370496;
          change (2 ^ 53) with 9007199254740992; lia).
    rewrite fexp_normal by (unfold k; lia).
    replace (53 + (ex + k) - 53 - (ex + k)) with 0 by lia.
    cbn [shr shr_record_of_loc shr_m].
    replace (ex + k <=? 1024 - 53) with true
      by (symmetry; apply Z.leb_le; unfold k; lia).
    reflexivity.
  - replace r with 9007199254740992 by lia.
    replace (ex + k + 1) with (ex + k - -1) by lia.
    set (e0 := ex + k).
    assert (He0 : -1074 <= e0 < 971) by (unfold e0, k; lia).
    change (Zdigits2 9007199254740992) with 54.
    rewrite fexp_normal by lia.
    replace (54 + e0 - 53 - e0) with 1 by lia.
    cbn [shr shr_record_of_loc SpecFloat.iter_pos shr_1 shr_m].
    replace (e0 + 1 <=? 1024 - 53) with true by (symmetry; apply Z.leb_le; lia).
    f_equal; lia.
Qed.

(** The same result by its bounds: a 53-bit mantissa, at most half a unit
    in the last place away from [N / D], hence within [2^-53] of it in
    relative terms. *)
Lemma binary_round_aux_bounds s N D ex :
  0 <= N -> 0 < D ->
  53 <= Zdigits2 (N / D) ->
  -1074 <= ex + Zdigits2 (N / D) - 53 < 971 ->
  exists m j,
    binary_round_aux 53 1024 s (N / D) ex (loc_ratio N D)
    = S754_finite s m (ex + j)
    /\ two52 <= Z.pos m < two53
    /\ Zdigits2 (N / D) - 53 <= j <= Zdigits2 (N / D) - 52
    /\ - (D * 2 ^ j) <= 2 * (Z.pos m * 2 ^ j * D - N) <= D * 2 ^ j
    /\ - N <= two53 * (Z.pos m * 2 ^ j * D - N) <= N.
Proof.
  intros HN HD Hd Hex.
  destruct (binary_round_aux_normal s N D ex HN HD Hd Hex) as [Hm1 Heq].
  cbv zeta in Hm1, Heq. rewrite Heq. clear Heq.
  set (k := Zdigits2 (N / D) - 53) in *.
  assert (Hk : 0 <= k) by (unfold k; lia).
  assert (H2k : 0 < 2 ^ k) by (apply Z.pow_pos_nonneg; lia).
  set (D' := D * 2 ^ k) in *.
  assert (HD' : 0 < D') by (unfold D'; nia).
  pose proof (rne_bounds N D' HN HD') as [[Hr1 Hr2] Herr].
  pose proof (Z.mul_div_le N D' HD') as Hfloor.
  set (r := rne N D') in *.
  unfold two52, two53 in *.
  destruct (Z.ltb_spec r 9007199254740992) as [Hnov | Hov].
  - exists (Z.to_pos r), k.
    rewrite Z2Pos.id by lia.
    split; [reflexivity |]. split; [lia |]. split; [unfold k; lia |].
    unfold D' in *. split; nia.
  - exists 4503599627370496%positive, (k + 1).
    rewrite Z.add_assoc.
    split; [reflexivity |]. split; [lia |]. split; [unfold k; lia |].
    rewrite Z.pow_add_r, Z.pow_1_r by lia.
    unfold D' in *. split; nia.
Qed.

Lemma rne_exact N D : N mod D = 0 -> rne N D = N / D.
Proof.
  intros H. unfold rne, loc_ratio. rewrite H. reflexivity.
Qed.

Lemma div_eucl_eq a b : Z.div_eucl a b = (a / b, a mod b).
Proof. unfold Z.div, Z.modulo. destruct (Z.div_eucl a b). reflexivity. Qed.

Lemma new_location_ratio N D :
  0 < D -> new_location D (N mod D) = loc_ratio N D.
Proof.
  intros HD. pose proof (Z.mod_pos_bound N D HD) as B.
  unfold new_location, new_location_even, new_location_odd, loc_ratio.
  destruct (Z.even D) eqn:Ev; destruct (Z.eqb_spec (N mod D) 0) as [E | E];
    try reflexivity.
  f_equal.
  assert (Hodd : Z.odd D = true) by (rewrite <- Z.negb_even, Ev; reflexivity).
  apply Z.odd_spec in Hodd as [t Ht].
  destruct (Z.compare_spec (2 * (N mod D) + 1) D);
    destruct (Z.compare_spec (2 * (N mod D)) D); try reflexivity; lia.
Qed.

Lemma Zdigits2_pos m : 0 < m -> 0 < Zdigits2 m.
Proof. destruct m; simpl; lia. Qed.

Lemma Zdigits2_le a b : 0 < a -> a <= b -> Zdigits2 a <= Zdigits2 b.
Proof.
  intros Ha Hab.
  pose proof (Zdigits2_bounds a Ha) as [Hlo _].
  pose proof (Zdigits2_bounds b ltac:(lia)) as [_ Hhi].
  pose proof (Zdigits2_pos a Ha). pose proof (Zdigits2_pos b ltac:(lia)).
  assert (2 ^ (Zdigits2 a - 1) < 2 ^ Zdigits2 b) by lia.
  apply Z.pow_lt_mono_r_iff in H1; lia.
Qed.

Lemma Zdigits2_lt_pow m n : 0 < m -> 0 <= n -> m < 2 ^ n -> Zdigits2 m <= n.
Proof.
  intros Hm Hn Hlt.
  pose proof (Zdigits2_bounds m Hm) as [Hlo _].
  pose proof (Zdigits2_pos m Hm).
  assert (2 ^ (Zdigits2 m - 1) < 2 ^ n) by lia.
  apply Z.pow_lt_mono_r_iff in H0; lia.
Qed.

Lemma Zdigits2_ge_pow m n : 0 <= n -> 2 ^ n <= m -> n + 1 <= Zdigits2 m.
Proof.
  intros Hn Hle.
  assert (Hm : 0 < m) by (pose proof (Z.pow_pos_nonneg 2 n); lia).
  pose proof (Zdigits2_bounds m Hm) as [_ Hhi].
  pose proof (Zdigits2_pos m Hm).
  assert (2 ^ n < 2 ^ Zdigits2 m) by lia.
  apply Z.pow_lt_mono_r_iff in H0; lia.
Qed.

(** The core of the division of two positive integers [a <= b]. *)
Lemma SFdiv_core_binary_ratio a b :
  0 < a -> a <= b -> b < 2 ^ 1000 ->
  let s := 53 + Zdigits2 b - Zdigits2 a in
  53 <= s <= 1053
  /\ two52 <= a * 2 ^ s / b < 2 * two53
  /\ SFdiv_core_binary 53 1024 a 0 b 0
     = (a * 2 ^ s / b, - s, loc_ratio (a * 2 ^ s) b).
Proof.
  intros Ha Hab Hb s.
  pose proof (Zdigits2_le a b Ha Hab) as Hd.
  pose proof (Zdigits2_pos a Ha) as Hda.
  pose proof (Zdigits2_lt_pow b 1000 ltac:(lia) ltac:(lia) Hb) as Hdb.
  pose proof (Zdigits2_bounds a Ha) as [Hlo1 Hhi1].
  pose proof (Zdigits2_bounds b ltac:(lia)) as [Hlo2 Hhi2].
  assert (Hs : 53 <= s <= 1053) by (unfold s; lia).
  split; [exact Hs |].
  assert (Hs1 : 2 ^ (Zdigits2 a - 1) * 2 ^ s = two52 * 2 ^ Zdigits2 b).
  { rewrite two52_eq, <- !Z.pow_add_r by lia. f_equal. unfold s. lia. }
  assert (Hs2 : 2 ^ Zdigits2 a * 2 ^ s = 2 * two53 * 2 ^ (Zdigits2 b - 1)).
  { change (2 * two53) with (2 ^ 54).
    rewrite <- !Z.pow_add_r by lia. f_equal. unfold s. lia. }
  assert (H2s : 0 < 2 ^ s) by (apply Z.pow_pos_nonneg; lia).
  assert (Hq : two52 <= a * 2 ^ s / b < 2 * two53).
  { split.
    - apply Z.div_le_lower_bound; [lia |].
      unfold two52, two53 in *. nia.
    - apply Z.div_lt_upper_bound; [lia |].
      unfold two52, two53 in *. nia. }
  split; [exact Hq |].
  unfold SFdiv_core_binary. rewrite !Z.add_0_r.
  rewrite fexp_normal by lia.
  change (0 - 0) with 0.
  rewrite Z.min_l by lia.
  replace (0 - (Zdigits2 a - Zdigits2 b - 53)) with s by (unfold s; lia).
  destruct s as [| ps | ps] eqn:Es; try lia.
  rewrite Z.shiftl_mul_pow2 by lia.
  rewrite div_eucl_eq, new_location_ratio by lia.
  repeat f_equal. unfold s in Es. lia.
Qed.

(** [a / b] for [0 < a <= b]: a normal float [m * 2^e], within half a unit
    in the last place of the quotient. *)
Lemma truediv_bounds a b :
  0 < a -> a <= b -> b < 2 ^ 1000 ->
  exists m e,
    PyNum.truediv a b = inr (S754_finite false m e)
    /\ two52 <= Z.pos m < two53
    /\ -1053 <= e <= -51
    /\ - b <= 2 * (Z.pos m * b - a * 2 ^ (- e)) <= b
    /\ - (a * 2 ^ (- e)) <= two53 * (Z.pos m * b - a * 2 ^ (- e)) <= a * 2 ^ (- e).
Proof.
  intros Ha Hab Hb.
  destruct (SFdiv_core_binary_ratio a b Ha Hab Hb) as (Hs & Hq & Hcore).
  cbv zeta in Hs, Hq, Hcore.
  set (s := 53 + Zdigits2 b - Zdigits2 a) in *.
  set (N := a * 2 ^ s) in *.
  assert (H2s : 0 < 2 ^ s) by (apply Z.pow_pos_nonneg; lia).
  assert (HN : 0 <= N) by (unfold N; nia).
  assert (Hdq : 53 <= Zdigits2 (N / b) <= 54).
  { split.
    - apply (Zdigits2_ge_pow _ 52); [lia | rewrite <- two52_eq; lia].
    - apply Zdigits2_lt_pow; [unfold two52 in *; lia | lia |].
      change (2 ^ 54) with (2 * two53). lia. }
  destruct (binary_round_aux_bounds false N b (- s) HN ltac:(lia) ltac:(lia)
              ltac:(lia)) as (m & j & Hres & Hm & Hj & Hhalf & Hrel).
  exists m, (- s + j).
  assert (H2j : 0 < 2 ^ j) by (apply Z.pow_pos_nonneg; lia).
  assert (HE : 2 ^ s = 2 ^ j * 2 ^ (- (- s + j))).
  { rewrite <- Z.pow_add_r by lia. f_equal. lia. }
  assert (H2e : 0 < 2 ^ (- (- s + j))) by (apply Z.pow_pos_nonneg; lia).
  split; [| split; [exact Hm | split; [lia |]]].
  - unfold PyNum.truediv.
    replace (b =? 0) with false by (symmetry; apply Z.eqb_neq; lia).
    destruct a as [| pa | pa]; try lia. destruct b as [| pb | pb]; try lia.
    cbn [PyNum.exact_int SFdiv xorb]. unfold PyNum.prec, PyNum.emax.
    rewrite Hcore, Hres. reflexivity.
  - unfold N in *. rewrite HE in *.
    set (E := 2 ^ (- (- s + j))) in *. set (T := 2 ^ j) in *.
    split; split; nia.
Qed.

Lemma pos_iter_xO p d : Z.pos (Pos.iter xO p d) = Z.pos p * 2 ^ Z.pos d.
Proof.
  induction d as [| d IH] using Pos.peano_ind.
  - simpl. lia.
  - rewrite Pos.iter_succ, Pos2Z.inj_xO, IH, Pos2Z.inj_succ, Z.pow_succ_r by lia.
    lia.
Qed.

Lemma loc_ratio_1 n : loc_ratio n 1 = loc_Exact.
Proof. unfold loc_ratio. rewrite Z.mod_1_r. reflexivity. Qed.

(** Rounding an integer mantissa that needs no rounding: [n] is a multiple
    of [2^k], where [k] is the number of bits beyond 53. *)
Lemma binary_round_aux_exact s n ex :
  0 < n ->
  53 <= Zdigits2 n ->
  -1074 <= ex + Zdigits2 n - 53 < 971 ->
  n mod 2 ^ (Zdigits2 n - 53) = 0 ->
  binary_round_aux 53 1024 s n ex loc_Exact
  = S754_finite s (Z.to_pos (n / 2 ^ (Zdigits2 n - 53))) (ex + (Zdigits2 n - 53)).
Proof.
  intros Hn Hd Hex Hmod.
  rewrite <- (loc_ratio_1 n). rewrite <- (Z.div_1_r n) at 1.
  destruct (binary_round_aux_normal s n 1 ex) as [Hm1 Heq];
    rewrite ?Z.div_1_r; try lia.
  cbv zeta in Hm1, Heq. rewrite Z.div_1_r, Z.mul_1_l in *.
  rewrite Heq, rne_exact by exact Hmod.
  destruct (Z.ltb_spec (n / 2 ^ (Zdigits2 n - 53)) two53); [reflexivity | lia].
Qed.

(** [float(h)] for [0 < h < 2^53] is exact. *)
Lemma float_of_int_exact h :
  0 < h < two53 ->
  exists m e,
    PyNum.float_of_int h = inr (S754_finite false m e)
    /\ two52 <= Z.pos m < two53
    /\ -52 <= e <= 0
    /\ Z.pos m = h * 2 ^ (- e).
Proof.
  intros [Hh Hlt].
  pose proof (Zdigits2_pos h Hh) as Hd0.
  pose proof (Zdigits2_lt_pow h 53 Hh ltac:(lia) Hlt) as Hd1.
  pose proof (Zdigits2_bounds h Hh) as [Hlo Hhi].
  set (d := Zdigits2 h) in *.
  assert (H2 : 0 < 2 ^ (53 - d)) by (apply Z.pow_pos_nonneg; lia).
  assert (Hlo' : two52 <= h * 2 ^ (53 - d)).
  { rewrite two52_eq. replace 52 with ((d - 1) + (53 - d)) by lia.
    rewrite Z.pow_add_r by lia. nia. }
  assert (Hhi' : h * 2 ^ (53 - d) < two53).
  { rewrite two53_eq. replace 53 with (d + (53 - d)) at 2 by lia.
    rewrite Z.pow_add_r by lia. nia. }
  exists (Z.to_pos (h * 2 ^ (53 - d))), (d - 53).
  rewrite Z2Pos.id by lia.
  replace (- (d - 53)) with (53 - d) by lia.
  split; [| split; [lia | split; [lia | reflexivity]]].
  destruct h as [| p | p]; try lia.
  unfold PyNum.float_of_int, PyNum.prec, PyNum.emax.
  cbn [binary_normalize]. unfold binary_round.
  change (Z.pos (digits2_pos p)) with d. rewrite Z.add_0_r.
  rewrite fexp_normal by lia.
  assert (Hal : exists mz, shl_align p 0 (d - 53) = (mz, d - 53)
                           /\ Z.pos mz = Z.pos p * 2 ^ (53 - d)).
  { unfold shl_align. rewrite Z.sub_0_r.
    destruct (d - 53) as [| q | q] eqn:E; try lia.
    - exists p. replace (53 - d) with 0 by lia. split; [reflexivity | lia].
    - exists (Pos.iter xO p q). split; [reflexivity |].
      rewrite pos_iter_xO. f_equal. f_equal. lia. }
  destruct Hal as (mz & -> & Hmz).
  assert (Hdz : Zdigits2 (Z.pos mz) = 53).
  { apply Zdigits2_unique; [| lia]. rewrite Hmz.
    change (2 ^ (53 - 1)) with two52. change (2 ^ 53) with two53. lia. }
  rewrite binary_round_aux_exact; rewrite ?Hdz; try lia.
  - change (2 ^ (53 - 53)) with 1. rewrite Z.div_1_r, Z.add_0_r.
    rewrite Hmz. reflexivity.
  - change (2 ^ (53 - 53)) with 1. apply Z.mod_1_r.
Qed.

Lemma SFmul_finite m1 e1 m2 e2 :
  SFmul 53 1024 (S754_finite false m1 e1) (S754_finite false m2 e2)
  = binary_round_aux 53 1024 false (Z.pos m1 * Z.pos m2) (e1 + e2) loc_Exact.
Proof. reflexivity. Qed.

Lemma mantissa_product_digits m1 m2 :
  two52 <= m1 < two53 -> two52 <= m2 < two53 ->
  105 <= Zdigits2 (m1 * m2) <= 106.
Proof.
  intros H1 H2. split.
  - apply (Zdigits2_ge_pow _ 104); [lia |].
    change (2 ^ 104) with (two52 * two52). unfold two52, two53 in *. nia.
  - apply Zdigits2_lt_pow; [unfold two52 in *; nia | lia |].
    change (2 ^ 106) with (two53 * two53). unfold two52, two53 in *. nia.
Qed.

(** The product of two normal floats that stays in the normal range. *)
Lemma SFmul_bounds m1 e1 m2 e2 :
  two52 <= Z.pos m1 < two53 -> two52 <= Z.pos m2 < two53 ->
  -1074 - 52 <= e1 + e2 < 971 - 53 ->
  exists m j,
    SFmul 53 1024 (S754_finite false m1 e1) (S754_finite false m2 e2)
    = S754_finite false m (e1 + e2 + j)
    /\ two52 <= Z.pos m < two53
    /\ 52 <= j <= 54
    /\ - (Z.pos m1 * Z.pos m2)
       <= two53 * (Z.pos m * 2 ^ j - Z.pos m1 * Z.pos m2)
       <= Z.pos m1 * Z.pos m2.
Proof.
  intros H1 H2 He.
  pose proof (mantissa_product_digits _ _ H1 H2) as Hd.
  rewrite SFmul_finite.
  set (N := Z.pos m1 * Z.pos m2) in *.
  destruct (binary_round_aux_bounds false N 1 (e1 + e2))
    as (m & j & Hres & Hm & Hj & _ & Hrel);
    rewrite ?Z.div_1_r in *; try lia.
  rewrite loc_ratio_1 in Hres.
  exists m, j. rewrite Z.mul_1_r in Hrel.
  repeat split; try lia. exact Hres.
Qed.

Lemma int_of_float_finite m e :
  PyNum.int_of_float (S754_finite false m e)
  = inr (if e <? 0 then Z.pos m / 2 ^ (- e) else Z.pos m * 2 ^ e).
Proof.
  unfold PyNum.int_of_float. f_equal.
  destruct e as [| p | p]; simpl Z.ltb; cbv iota.
  - rewrite Z.shiftl_mul_pow2 by lia. reflexivity.
  - rewrite Z.shiftl_mul_pow2 by lia. reflexivity.
  - rewrite Z.shiftr_div_pow2 by lia. reflexivity.
Qed.

(** The two roundings, on integers: [mq / Eq] is the rounded quotient
    [a / b], [c = mh / Eh] exactly and [m * T / (Eq * Eh)] the rounded
    product. *)
Lemma two_roundings a b c mq Eq mh Eh m T :
  0 < a -> 0 < b -> 0 < c -> a * c < 2 ^ 51 ->
  0 < Eq -> 0 < Eh -> 0 < mq ->
  - (a * Eq) <= two53 * (mq * b - a * Eq) <= a * Eq ->
  mh = c * Eh ->
  - (mq * mh) <= two53 * (m * T - mq * mh) <= mq * mh ->
  m * T * b < (a * c + 1) * (Eq * Eh)
  /\ (two53 - 1) * (two53 - 1) * (a * c * (Eq * Eh)) <= two53 * two53 * (m * T * b).
Proof.
  intros Ha Hb Hc Hac HEq HEh Hmq H1 -> H3.
  change (2 ^ 51) with 2251799813685248 in Hac.
  set (P := m * T) in *. set (W := Eq * Eh). set (Y := a * c) in *.
  assert (HW : 0 < W) by (unfold W; nia).
  assert (HY : 0 < Y) by (unfold Y; nia).
  assert (HM : 0 < mq * (c * Eh)) by nia.
  unfold two53 in *.
  split.
  - assert (U1 : 9007199254740992 * P * (9007199254740992 * b)
                 <= 9007199254740993 * (mq * (c * Eh)) * (9007199254740992 * b))
      by (apply Z.mul_le_mono_nonneg_r; lia).
    assert (U2 : 9007199254740992 * (mq * b) * (9007199254740993 * (c * Eh))
                 <= 9007199254740993 * (a * Eq) * (9007199254740993 * (c * Eh)))
      by (apply Z.mul_le_mono_nonneg_r; nia).
    assert (U3 : 9007199254740992 * 9007199254740992 * (P * b)
                 <= 9007199254740993 * 9007199254740993 * (Y * W))
      by (unfold Y, W; nia).
    assert (U4 : 9007199254740993 * 9007199254740993 * Y * W
                 < 9007199254740992 * 9007199254740992 * (Y + 1) * W)
      by (apply Z.mul_lt_mono_pos_r; lia).
    nia.
  - assert (L1 : 9007199254740991 * (mq * (c * Eh)) * (9007199254740992 * b)
                 <= 9007199254740992 * P * (9007199254740992 * b))
      by (apply Z.mul_le_mono_nonneg_r; lia).
    assert (L2 : 9007199254740991 * (a * Eq) * (9007199254740991 * (c * Eh))
                 <= 9007199254740992 * (mq * b) * (9007199254740991 * (c * Eh)))
      by (apply Z.mul_le_mono_nonneg_r; nia).
    unfold Y, W. nia.
Qed.


(** From the two bounds on the rounded product [m / G] to the floor of the
    exact quotient. *)
Lemma floor_window a b c m G T :
  0 < a -> 0 < b -> 0 < c -> a * c < 2 ^ 51 ->
  0 < G -> 0 < T -> 0 < m ->
  m * T * b < (a * c + 1) * (G * T) ->
  (two53 - 1) * (two53 - 1) * (a * c * (G * T)) <= two53 * two53 * (m * T * b) ->
  a * c / b - 1 <= m / G <= a * c / b
  /\ (b < a * c -> 1 <= m / G).
Proof.
  intros Ha Hb Hc Hac HG HT Hm Hup Hlo.
  change (2 ^ 51) with 2251799813685248 in Hac.
  pose proof (Z.div_mod (a * c) b ltac:(lia)) as Ediv.
  pose proof (Z.mod_pos_bound (a * c) b ltac:(lia)) as Bmod.
  set (Y := a * c) in *. set (X := Y / b) in *. set (R := Y mod b) in *.
  assert (HY : 0 < Y) by (unfold Y; nia).
  set (K := G * T) in *. set (U := T * b).
  assert (HK : 0 < K) by (unfold K; nia).
  assert (HU : 0 < U) by (unfold U; nia).
  assert (EK : forall z, z * K * b = G * z * U) by (intros; unfold K, U; ring).
  assert (Em : m * T * b = m * U) by (unfold U; ring).
  rewrite Em in Hup, Hlo. unfold two53 in Hlo.
  split; [split |].
  - (* G * (X - 1) <= m *)
    apply Z.div_le_lower_bound; [lia |].
    apply (Z.mul_le_mono_pos_r _ _ U HU).
    rewrite <- EK.
    assert (L1 : 9007199254740992 * 9007199254740992 * ((X - 1) * b)
                 <= 9007199254740991 * 9007199254740991 * Y) by lia.
    assert (L2 : 9007199254740992 * 9007199254740992 * ((X - 1) * b) * K
                 <= 9007199254740991 * 9007199254740991 * Y * K)
      by (apply Z.mul_le_mono_nonneg_r; lia).
    apply (Z.mul_le_mono_pos_l _ _ (9007199254740992 * 9007199254740992));
      [lia |].
    replace (9007199254740992 * 9007199254740992 * ((X - 1) * K * b))
      with (9007199254740992 * 9007199254740992 * ((X - 1) * b) * K) by ring.
    replace (9007199254740991 * 9007199254740991 * (Y * K))
      with (9007199254740991 * 9007199254740991 * Y * K) in Hlo by ring.
    lia.
  - (* m < G * (X + 1) *)
    apply Z.lt_succ_r. apply Z.div_lt_upper_bound; [lia |].
    apply (Z.mul_lt_mono_pos_r U _ _ HU).
    replace (Z.succ X) with (X + 1) by lia. rewrite <- EK.
    assert (U1 : (Y + 1) * K <= (X + 1) * b * K)
      by (apply Z.mul_le_mono_nonneg_r; lia).
    replace ((X + 1) * K * b) with ((X + 1) * b * K) by ring.
    lia.
  - (* G <= m when the exact quotient exceeds one *)
    intros Hgt. apply Z.div_le_lower_bound; [lia |].
    apply (Z.mul_le_mono_pos_r _ _ U HU).
    replace (G * 1 * U) with (1 * K * b) by (rewrite EK; ring).
    assert (L1 : 9007199254740992 * 9007199254740992 * b
                 <= 9007199254740991 * 9007199254740991 * Y) by lia.
    assert (L2 : 9007199254740992 * 9007199254740992 * b * K
                 <= 9007199254740991 * 9007199254740991 * Y * K)
      by (apply Z.mul_le_mono_nonneg_r; lia).
    apply (Z.mul_le_mono_pos_l _ _ (9007199254740992 * 9007199254740992));
      [lia |].
    replace (9007199254740992 * 9007199254740992 * (1 * K * b))
      with (9007199254740992 * 9007199254740992 * b * K) by ring.
    replace (9007199254740991 * 9007199254740991 * (Y * K))
      with (9007199254740991 * 9007199254740991 * Y * K) in Hlo by ring.
    lia.
Qed.

(** When the exact quotient is not an integer, the rounded product does not
    fall below its floor: the two roundings move it by less than the distance
    [1 / b] to the integer below. *)
Lemma floor_exact a b c m G T :
  0 < a -> 0 < b -> 0 < c -> a * c < 2 ^ 51 ->
  0 < G -> 0 < T -> 0 < m ->
  (two53 - 1) * (two53 - 1) * (a * c * (G * T)) <= two53 * two53 * (m * T * b) ->
  (a * c) mod b <> 0 ->
  a * c / b <= m / G.
Proof.
  intros Ha Hb Hc Hac HG HT Hm Hlo Hrem.
  change (2 ^ 51) with 2251799813685248 in Hac.
  pose proof (Z.div_mod (a * c) b ltac:(lia)) as Ediv.
  pose proof (Z.mod_pos_bound (a * c) b ltac:(lia)) as Bmod.
  set (Y := a * c) in *. set (X := Y / b) in *. set (R := Y mod b) in *.
  assert (HY : 0 < Y) by (unfold Y; nia).
  assert (HX : 0 <= X) by (apply Z.div_pos; lia).
  set (K := G * T) in *. set (U := T * b).
  assert (HK : 0 < K) by (unfold K; nia).
  assert (HU : 0 < U) by (unfold U; nia).
  assert (EK : forall z, z * K * b = G * z * U) by (intros; unfold K, U; ring).
  assert (Em : m * T * b = m * U) by (unfold U; ring).
  rewrite Em in Hlo. unfold two53 in Hlo.
  apply Z.div_le_lower_bound; [lia |].
  apply (Z.mul_le_mono_pos_r _ _ U HU).
  rewrite <- EK.
  assert (HXb : 0 <= X * b) by (apply Z.mul_nonneg_nonneg; lia).
  assert (L1 : 9007199254740992 * 9007199254740992 * (X * b)
               <= 9007199254740991 * 9007199254740991 * Y) by lia.
  assert (L2 : 9007199254740992 * 9007199254740992 * (X * b) * K
               <= 9007199254740991 * 9007199254740991 * Y * K)
    by (apply Z.mul_le_mono_nonneg_r; lia).
  apply (Z.mul_le_mono_pos_l _ _ (9007199254740992 * 9007199254740992));
    [lia |].
  replace (9007199254740992 * 9007199254740992 * (X * K * b))
    with (9007199254740992 * 9007199254740992 * (X * b) * K) by ring.
  replace (9007199254740991 * 9007199254740991 * (Y * K))
    with (9007199254740991 * 9007199254740991 * Y * K) in Hlo by ring.
  lia.
Qed.

(** [int((a / b) * c)] for [0 < a <= b]: the result exists; it is the
    truncation [m / G] of a float [m / G] that the two roundings keep within
    these bounds of the exact quotient. *)
Lemma scale_rounded a b c :
  0 < a -> a <= b -> 0 < c -> b * c < 2 ^ 51 ->
  exists m G T,
    PyNum.scale a b c = inr (Z.pos m / G)
    /\ 0 < G /\ 0 < T
    /\ Z.pos m * T * b < (a * c + 1) * (G * T)
    /\ (two53 - 1) * (two53 - 1) * (a * c * (G * T))
       <= two53 * two53 * (Z.pos m * T * b).
Proof.
  intros Ha Hab Hc Hbc.
  assert (H51 : 2 ^ 51 = 2251799813685248) by reflexivity.
  assert (Hb : b < 2 ^ 1000).
  { apply Z.lt_trans with (2 ^ 51); [nia |]. apply Z.pow_lt_mono_r; lia. }
  assert (Hac : a * c < 2 ^ 51) by nia.
  assert (Hc53 : 0 < c < two53) by (unfold two53; nia).
  destruct (truediv_bounds a b Ha Hab Hb) as (mq & eq & Hq & Hmq & Heq & _ & Hrq).
  destruct (float_of_int_exact c Hc53) as (mh & eh & Hh & Hmh & Heh & Hhv).
  destruct (SFmul_bounds mq eq mh eh Hmq Hmh ltac:(lia))
    as (m & j & Hp & Hm & Hj & Hrp).
  set (Eq := 2 ^ (- eq)) in *. set (Eh := 2 ^ (- eh)) in *. set (T := 2 ^ j) in *.
  assert (HEq : 0 < Eq) by (apply Z.pow_pos_nonneg; lia).
  assert (HEh : 0 < Eh) by (apply Z.pow_pos_nonneg; lia).
  assert (HT : 0 < T) by (apply Z.pow_pos_nonneg; lia).
  destruct (two_roundings a b c (Z.pos mq) Eq (Z.pos mh) Eh (Z.pos m) T)
    as [Hup Hlo]; try lia.
  assert (HW : Eq * Eh = 2 ^ (- eq - eh)).
  { unfold Eq, Eh. rewrite <- Z.pow_add_r by lia. f_equal; lia. }
  (* the product is below 2^52, so its exponent is negative *)
  assert (Hneg : eq + eh + j < 0).
  { destruct (Z.lt_ge_cases (eq + eh + j) 0) as [? | Hge]; [assumption |].
    exfalso.
    assert (HTW : Eq * Eh <= T).
    { rewrite HW. unfold T. apply Z.pow_le_mono_r; lia. }
    unfold two52, two53 in *. nia. }
  set (G := 2 ^ (- (eq + eh + j))).
  assert (HG : 0 < G) by (apply Z.pow_pos_nonneg; lia).
  assert (HGT : G * T = Eq * Eh).
  { rewrite HW. unfold G, T. rewrite <- Z.pow_add_r by lia. f_equal; lia. }
  exists m, G, T.
  split.
  { unfold PyNum.scale. rewrite Hq. cbn [rbind].
    unfold PyNum.float_mul_int. rewrite Hh. cbn [rbind].
    unfold PyNum.prec, PyNum.emax. rewrite Hp, int_of_float_finite.
    destruct (Z.ltb_spec (eq + eh + j) 0); [reflexivity | lia]. }
  rewrite <- HGT in Hup, Hlo. auto.
Qed.

(** [int((a / b) * c)] for [0 < a <= b]: the result exists, and is the
    floor of the exact quotient or one less. *)
Lemma scale_bounds a b c :
  0 < a -> a <= b -> 0 < c -> b * c < 2 ^ 51 ->
  exists d,
    PyNum.scale a b c = inr d
    /\ a * c / b - 1 <= d <= a * c / b
    /\ 0 <= d
    /\ (b < a * c -> 1 <= d).
Proof.
  intros Ha Hab Hc Hbc.
  destruct (scale_rounded a b c Ha Hab Hc Hbc)
    as (m & G & T & Hs & HG & HT & Hup & Hlo).
  assert (Hac : a * c < 2 ^ 51).
  { change (2 ^ 51) with 2251799813685248 in *. nia. }
  exists (Z.pos m / G). split; [exact Hs |].
  destruct (floor_window a b c (Z.pos m) G T) as [Hwin Hone]; try lia.
  split; [exact Hwin |]. split; [apply Z.div_pos; lia | exact Hone].
Qed.

(** When the exact quotient is not an integer, [int((a / b) * c)] is its
    floor. *)
Lemma scale_floor a b c :
  0 < a -> a <= b -> 0 < c -> b * c < 2 ^ 51 ->
  (a * c) mod b <> 0 ->
  PyNum.scale a b c = inr (a * c / b).
Proof.
  intros Ha Hab Hc Hbc Hrem.
  destruct (scale_rounded a b c Ha Hab Hc Hbc)
    as (m & G & T & Hs & HG & HT & Hup & Hlo).
  assert (Hac : a * c < 2 ^ 51).
  { change (2 ^ 51) with 2251799813685248 in *. nia. }
  destruct (floor_window a b c (Z.pos m) G T) as [[_ Hhi] _]; try lia.
  pose proof (floor_exact a b c (Z.pos m) G T) as Hlow.
  rewrite Hs. f_equal. apply Z.le_antisymm; [exact Hhi |].
  apply Hlow; lia.
Qed.

(** The three steps of [int((a / b) * c)]. *)
Lemma scale_steps a b c d :
  PyNum.scale a b c = inr d ->
  exists q p,
    PyNum.truediv a b = inr q
    /\ PyNum.float_mul_int q c = inr p
    /\ PyNum.int_of_float p = inr d.
Proof.
  unfold PyNum.scale.
  destruct (PyNum.truediv a b) as [e | q] eqn:Hq; cbn [rbind];
    [discriminate |].
  destruct (PyNum.float_mul_int q c) as [e | p] eqn:Hp; cbn [rbind];
    [discriminate |].
  intros H. exists q, p. auto.
Qed.

(** [b / b] is [1.0]. *)
Lemma truediv_same b :
  0 < b -> b < 2 ^ 1000 ->
  PyNum.truediv b b = inr (S754_finite false 4503599627370496 (-52)).
Proof.
  intros Hb Hlt.
  destruct (SFdiv_core_binary_ratio b b Hb ltac:(lia) Hlt) as (_ & _ & Hcore).
  cbv zeta in Hcore.
  replace (53 + Zdigits2 b - Zdigits2 b) with 53 in Hcore by lia.
  set (N := b * 2 ^ 53) in *.
  assert (HN : N = two52 * (b * 2 ^ 1)) by (unfold N, two52; change (2 ^ 53) with 9007199254740992; change (2 ^ 1) with 2; lia).
  assert (Hq : N / b = two53).
  { unfold N. rewrite Z.mul_comm, Z.div_mul by lia. reflexivity. }
  assert (Hd : Zdigits2 (N / b) = 54) by (rewrite Hq; reflexivity).
  destruct (binary_round_aux_normal false N b (-53)) as [_ Heq];
    rewrite ?Hd; try lia.
  cbv zeta in Heq. rewrite Hd in Heq. change (54 - 53) with 1 in Heq.
  rewrite rne_exact in Heq by (rewrite HN; apply Z.mod_mul; lia).
  replace (N / (b * 2 ^ 1)) with two52 in Heq
    by (rewrite HN, Z.div_mul by lia; reflexivity).
  change (two52 <? two53) with true in Heq. cbv iota in Heq.
  unfold PyNum.truediv.
  replace (b =? 0) with false by (symmetry; apply Z.eqb_neq; lia).
  destruct b as [| pb | pb]; try lia.
  cbn [PyNum.exact_int SFdiv xorb]. unfold PyNum.prec, PyNum.emax.
  rewrite Hcore. change (- (53)) with (-53). rewrite Heq. reflexivity.
Qed.

(** [1.0 * y] is [y] for a normal [y]. *)
Lemma SFmul_one m e :
  two52 <= Z.pos m < two53 -> -52 <= e <= 0 ->
  SFmul 53 1024 (S754_finite false 4503599627370496 (-52)) (S754_finite false m e)
  = S754_finite false m e.
Proof.
  intros Hm He. rewrite SFmul_finite.
  set (n := 4503599627370496 * Z.pos m).
  assert (Hd : Zdigits2 n = 105).
  { apply Zdigits2_unique; [| lia].
    change (2 ^ (105 - 1)) with (4503599627370496 * two52).
    change (2 ^ 105) with (4503599627370496 * two53).
    unfold n. lia. }
  assert (Hn : n = Z.pos m * 2 ^ 52)
    by (unfold n; change (2 ^ 52) with 4503599627370496; lia).
  assert (Hn0 : 0 < n) by (unfold n; lia).
  assert (Hmod : n mod 2 ^ (Zdigits2 n - 53) = 0).
  { rewrite Hd. change (105 - 53) with 52. rewrite Hn. apply Z.mod_mul. lia. }
  rewrite binary_round_aux_exact by (exact Hmod || (rewrite ?Hd; lia)).
  rewrite Hd. change (105 - 53) with 52. rewrite Hn, Z.div_mul by lia.
  rewrite Pos2Z.id. f_equal. lia.
Qed.

(** [int((b / b) * c)] is [c]. *)
Lemma scale_same b c :
  0 < b -> b < 2 ^ 1000 -> 0 < c < two53 ->
  PyNum.scale b b c = inr c.
Proof.
  intros Hb Hlt Hc.
  destruct (float_of_int_exact c Hc) as (mh & eh & Hh & Hmh & Heh & Hhv).
  unfold PyNum.scale. rewrite truediv_same by assumption. cbn [rbind].
  unfold PyNum.float_mul_int. rewrite Hh. cbn [rbind].
  unfold PyNum.prec, PyNum.emax.
  rewrite SFmul_one, int_of_float_finite by assumption.
  f_equal. rewrite Hhv.
  assert (0 < 2 ^ (- eh)) by (apply Z.pow_pos_nonneg; lia).
  destruct (Z.ltb_spec eh 0).
  - apply Z.div_mul. lia.
  - replace eh with 0 by lia. change (2 ^ (- 0)) with 1. change (2 ^ 0) with 1. lia.
Qed.

(** ** Checks on concrete inputs *)

Example truediv_29_100 :
  PyNum.truediv 29 100 = inr (S754_finite false 5224175567749775 (-54)).
Proof. vm_compute. reflexivity. Qed.

(** The embedding and the processor agree on the products used below. *)
Example model_is_machine_29 :
  model_product 29 100 100 = inr (machine_product 29 100 100).
Proof. vm_compute. reflexivity. Qed.

Example model_is_machine_49 :
  model_product 1 49 49 = inr (machine_product 1 49 49).
Proof. vm_compute. reflexivity. Qed.

Example model_is_machine_1080 :
  model_product 1 1920 1080 = inr (machine_product 1 1920 1080)
  /\ model_product 960 1920 1080 = inr (machine_product 960 1920 1080).
Proof. split; vm_compute; reflexivity. Qed.

Example new_dimensions_960 :
  new_dimensions "width" 960 1920 1080 = inr (Dims 960 540).
Proof. vm_compute. reflexivity. Qed.

Example new_dimensions_3840 :
  new_dimensions "width" 3840 1920 1080 = inr (Skip "original is only 1920px wide").
Proof. vm_compute. reflexivity. Qed.

Example new_dimensions_300_tall :
  new_dimensions "height" 300 800 600 = inr (Dims 400 300).
Proof. vm_compute. reflexivity. Qed.

Lemma new_dimensions_unfold dimension size ow oh :
  new_dimensions dimension size ow oh =
  if size >? axis_limit dimension ow oh
  then inr (Skip (skip_reason dimension ow oh))
  else (d <-? PyNum.scale size (axis_limit dimension ow oh)
                          (axis_other dimension ow oh);
        inr (if decide (dimension = "width") then Dims size d else Dims d size))%result.
Proof.
  unfold new_dimensions, axis_limit, axis_other, skip_reason.
  destruct (decide (dimension = "width")); reflexivity.
Qed.

Lemma new_dimensions_skip dimension size ow oh :
  size > axis_limit dimension ow oh ->
  new_dimensions dimension size ow oh = inr (Skip (skip_reason dimension ow oh)).
Proof.
  intros Hgt. rewrite new_dimensions_unfold.
  destruct (Z.gtb_spec size (axis_limit dimension ow oh)); [reflexivity | lia].
Qed.

Lemma new_dimensions_Skip_inv dimension size ow oh reason :
  new_dimensions dimension size ow oh = inr (Skip reason) ->
  size > axis_limit dimension ow oh /\ reason = skip_reason dimension ow oh.
Proof.
  rewrite new_dimensions_unfold.
  destruct (Z.gtb_spec size (axis_limit dimension ow oh)) as [Hgt | Hle].
  - intros [= <-]. split; [lia | reflexivity].
  - destruct (PyNum.scale _ _ _) as [e | d]; simpl; [discriminate |].
    destruct (decide (dimension = "width")); discriminate.
Qed.

Lemma new_dimensions_Dims_inv dimension size ow oh nw nh :
  new_dimensions dimension size ow oh = inr (Dims nw nh) ->
  size <= axis_limit dimension ow oh
  /\ on_axis dimension nw nh = size
  /\ PyNum.scale size (axis_limit dimension ow oh) (axis_other dimension ow oh)
     = inr (off_axis dimension nw nh).
Proof.
  rewrite new_dimensions_unfold. unfold on_axis, off_axis.
  destruct (Z.gtb_spec size (axis_limit dimension ow oh)) as [Hgt | Hle];
    [discriminate |].
  destruct (PyNum.scale _ _ _) as [e | d]; simpl; [discriminate |].
  destruct (decide (dimension = "width")); intros [= <- <-]; auto.
Qed.

(** ** What libraries write on the standard error stream *)

Lemma only_libraries_wrote_refl w : only_libraries_wrote w w.
Proof. exists []. rewrite !app_nil_r. auto. Qed.

Lemma only_libraries_wrote_trans w1 w2 w3 :
  only_libraries_wrote w1 w2 -> only_libraries_wrote w2 w3 ->
  only_libraries_wrote w1 w3.
Proof.
  intros (l1 & He1 & Hw1) (l2 & He2 & Hw2). exists (l1 ++ l2).
  rewrite He2, Hw2, He1, Hw1, <- !app_assoc. auto.
Qed.

Lemma only_libraries_wrote_warned w lines :
  only_libraries_wrote w (warned w lines).
Proof. exists (lines (warnings w)). auto. Qed.

(** Changes to the other parts of the world do not matter. *)
Lemma only_libraries_wrote_same w1 w2 w3 :
  only_libraries_wrote w1 w2 ->
  stderr w3 = stderr w2 -> warnings w3 = warnings w2 ->
  only_libraries_wrote w1 w3.
Proof. intros (l & He & Hw) E1 E2. exists l. rewrite E1, E2. auto. Qed.

(** ** One iteration and the loop *)

Section LoopFacts.
Context `{PIL : Imaging}.
Variables (img : Img) (orig_width orig_height : Z).
Variables (output_dir base_name extension dimension : string).
Variable quality : Z.

Let limit := axis_limit dimension orig_width orig_height.
Let reason := skip_reason dimension orig_width orig_height.
Let one := resize_one img orig_width orig_height output_dir base_name
                      extension dimension quality.
Let loop := resize_loop img orig_width orig_height output_dir base_name
                        extension dimension quality.

Let made_for := made_for output_dir base_name extension dimension
                        orig_width orig_height.

Lemma resize_one_skip size w :
  size > limit -> one size w = (Return (inl (size, reason)), w).
Proof.
  intros Hgt. unfold one, resize_one, bind, lift.
  rewrite (new_dimensions_skip _ _ _ _ Hgt). reflexivity.
Qed.

Lemma resize_one_inl size w s w' :
  one size w = (Return (inl s), w') ->
  size > limit /\ s = (size, reason) /\ w' = w.
Proof.
  unfold one, resize_one, bind, lift.
  destruct (new_dimensions dimension size orig_width orig_height)
    as [e | [r | nw nh]] eqn:Hd; simpl.
  - discriminate.
  - apply new_dimensions_Skip_inv in Hd as [Hgt ->].
    intros [= <- <-]. auto.
  - unfold lib_warns.
    destruct (img_resize img (nw, nh)) as [e | im]; simpl; [discriminate |].
    destruct (img_save_jpeg _ _ _) as [e | bytes]; simpl; [discriminate |].
    unfold get_file_size_kb, bind, getsize, lift; simpl.
    destruct (latest _ _); [| discriminate].
    destruct (PyNum.truediv _ _); discriminate.
Qed.

Lemma resize_one_inr size w c w' :
  one size w = (Return (inr c), w') ->
  size <= limit /\ made_for size c.
Proof.
  unfold one, resize_one, bind, lift.
  destruct (new_dimensions dimension size orig_width orig_height)
    as [e | [r | nw nh]] eqn:Hd; simpl; try discriminate.
  unfold lib_warns.
  destruct (img_resize img (nw, nh)) as [e | im]; simpl; [discriminate |].
  destruct (img_save_jpeg _ _ _) as [e | bytes]; simpl; [discriminate |].
  unfold get_file_size_kb, bind, getsize, lift; simpl.
  destruct (latest _ _); [| discriminate].
  destruct (PyNum.truediv _ _); simpl; [discriminate |].
  intros [= <- <-].
  pose proof (new_dimensions_Dims_inv _ _ _ _ _ _ Hd) as (Hle & Hax & _).
  split; [exact Hle |]. repeat split; simpl; auto.
Qed.

(** An iteration prints nothing itself, makes no directory and never exits:
    the standard output is untouched, and the standard error stream gets
    only what the resampler and the encoder write there. *)
Lemma resize_one_quiet size w o w' :
  one size w = (o, w') ->
  stdout w' = stdout w /\ only_libraries_wrote w w' /\ dirs w' = dirs w
  /\ (forall code, o <> SysExit code).
Proof.
  unfold one, resize_one, bind, lift.
  destruct (new_dimensions dimension size orig_width orig_height)
    as [e | [r | nw nh]]; simpl.
  - intros [= <- <-].
    repeat split; try discriminate. apply only_libraries_wrote_refl.
  - intros [= <- <-].
    repeat split; try discriminate. apply only_libraries_wrote_refl.
  - unfold lib_warns.
    set (w1 := warned w (resize_warnings img (nw, nh))).
    assert (L1 : only_libraries_wrote w w1)
      by apply only_libraries_wrote_warned.
    destruct (img_resize img (nw, nh)) as [e | im]; simpl.
    { intros [= <- <-]. repeat split; try discriminate. exact L1. }
    set (w2 := warned w1 _).
    assert (L2 : only_libraries_wrote w w2).
    { eapply only_libraries_wrote_trans; [exact L1 |].
      apply only_libraries_wrote_warned. }
    destruct (img_save_jpeg _ _ _) as [e | bytes]; simpl.
    { intros [= <- <-]. repeat split; try discriminate. exact L2. }
    unfold get_file_size_kb, bind, getsize, lift; simpl.
    destruct (latest _ _); simpl.
    + destruct (PyNum.truediv _ _); simpl;
        intros [= <- <-]; repeat split; try discriminate;
        (eapply only_libraries_wrote_same; [exact L2 | reflexivity ..]).
    + intros [= <- <-]. repeat split; try discriminate.
      eapply only_libraries_wrote_same; [exact L2 | reflexivity ..].
Qed.

Lemma resize_loop_quiet sizes : forall created skipped w o w',
  loop sizes created skipped w = (o, w') ->
  stdout w' = stdout w /\ only_libraries_wrote w w' /\ dirs w' = dirs w
  /\ (forall code, o <> SysExit code).
Proof.
  induction sizes as [| size rest IH]; intros created skipped w o w'; simpl.
  - intros [= <- <-].
    repeat split; try discriminate. apply only_libraries_wrote_refl.
  - unfold bind. fold one.
    destruct (one size w) as [[r | e | code] w1] eqn:H1;
      pose proof (resize_one_quiet _ _ _ _ H1) as (Ho & He & Hd & Hx).
    + destruct r as [s | c]; intros H;
        apply IH in H as (Ho' & He' & Hd' & Hx');
        (split; [congruence |]);
        (split; [eapply only_libraries_wrote_trans; eassumption |]);
        (split; [congruence | exact Hx']).
    + intros [= <- <-]. repeat split; auto; discriminate.
    + exfalso. exact (Hx code eq_refl).
Qed.

(** A run of the loop that returns has appended, in input order, one
    created entry per feasible size and one skipped entry per other size. *)
Lemma resize_loop_returns sizes : forall created skipped w created' skipped' w',
  loop sizes created skipped w = (Return (created', skipped'), w') ->
  exists cs,
    created' = created ++ cs
    /\ Forall2 made_for (List.filter (feasible limit) sizes) cs
    /\ skipped' = skipped
         ++ map (fun s => (s, reason)) (List.filter (infeasible limit) sizes).
Proof.
  induction sizes as [| size rest IH];
    intros created skipped w created' skipped' w'; simpl.
  - intros [= <- <- <-]. exists []. rewrite !app_nil_r. auto.
  - unfold bind. fold one.
    destruct (one size w) as [[r | e | code] w1] eqn:H1; try discriminate.
    destruct r as [s | c]; intros H; apply IH in H as (cs & -> & HF & ->).
    + apply resize_one_inl in H1 as (Hgt & -> & ->).
      unfold feasible, infeasible.
      destruct (Z.gtb_spec size limit); [| lia]. simpl.
      exists cs. rewrite <- app_assoc. auto.
    + apply resize_one_inr in H1 as (Hle & Hm).
      unfold feasible, infeasible.
      destruct (Z.gtb_spec size limit); [lia |]. simpl.
      exists (c :: cs). rewrite <- app_assoc. auto.
Qed.

(** A skipped size changes nothing but the list of skipped sizes. *)
Lemma resize_loop_skip size rest created skipped w :
  size > limit ->
  loop (size :: rest) created skipped w
  = loop rest created (skipped ++ [(size, reason)]) w.
Proof.
  intros Hgt. simpl. unfold bind. fold one.
  rewrite (resize_one_skip size w Hgt). reflexivity.
Qed.
End LoopFacts.

(** ** The files a call writes *)

Lemma latest_app_last p n fs : latest p (fs ++ [(p, n)]) = Some n.
Proof.
  induction fs as [| [p' n'] fs IH]; simpl.
  - destruct (decide (p = p)); [reflexivity | contradiction].
  - rewrite IH. reflexivity.
Qed.

Section LoopWrites.
Context `{PIL : Imaging}.
Variables (img : Img) (orig_width orig_height : Z).
Variables (output_dir base_name extension dimension : string).
Variable quality : Z.

Let limit := axis_limit dimension orig_width orig_height.
Let reason := skip_reason dimension orig_width orig_height.
Let one := resize_one img orig_width orig_height output_dir base_name
                      extension dimension quality.
Let loop := resize_loop img orig_width orig_height output_dir base_name
                        extension dimension quality.

(** What one iteration does to the files: nothing, or one file appended,
    named after the size, which then fits. *)
Lemma resize_one_files size w o w' :
  one size w = (o, w') ->
  (files w' = files w /\ forall c, o <> Return (inr c))
  \/ (exists bytes,
        size <= limit
        /\ files w' = files w ++ [(path_join output_dir
                                     (output_name base_name size extension), bytes)]
        /\ forall c, o = Return (inr c) ->
             path c = path_join output_dir (output_name base_name size extension)
             /\ PyNum.truediv bytes 1024 = inr (size_kb c)).
Proof.
  unfold one, resize_one, bind, lift.
  destruct (new_dimensions dimension size orig_width orig_height)
    as [e | [r | nw nh]] eqn:Hd; simpl.
  - intros [= <- <-]. left. split; [reflexivity | discriminate].
  - intros [= <- <-]. left. split; [reflexivity | discriminate].
  - apply new_dimensions_Dims_inv in Hd as (Hle & _ & _).
    unfold lib_warns.
    destruct (img_resize img (nw, nh)) as [e | im]; simpl.
    { intros [= <- <-]. left. split; [reflexivity | discriminate]. }
    destruct (img_save_jpeg _ _ _) as [e | bytes]; simpl.
    { intros [= <- <-]. left. split; [reflexivity | discriminate]. }
    unfold get_file_size_kb, bind, getsize, lift; simpl.
    rewrite latest_app_last.
    destruct (PyNum.truediv bytes 1024) as [e | kb] eqn:Hkb; simpl;
      intros [= <- <-]; right; exists bytes; simpl;
      (split; [exact Hle |]); (split; [reflexivity |]).
    + discriminate.
    + intros c [= <-]. simpl. auto.
Qed.

(** The loop over a concatenation is the loop over the first part followed,
    if it returns, by the loop over the second part from where it stopped. *)
Lemma resize_loop_app l1 : forall l2 created skipped w,
  loop (l1 ++ l2) created skipped w
  = match loop l1 created skipped w with
    | (Return (created1, skipped1), w1) => loop l2 created1 skipped1 w1
    | (Raise e, w1) => (Raise e, w1)
    | (SysExit code, w1) => (SysExit code, w1)
    end.
Proof.
  induction l1 as [| size rest IH]; intros l2 created skipped w.
  - reflexivity.
  - cbn [app]. unfold loop. cbn [resize_loop]. unfold bind. fold one. fold loop.
    destruct (one size w) as [[[s | c] | e | code] w1]; auto.
Qed.

(** The files after the loop, whatever its outcome: those before, followed
    by files named after sizes of the list that fit. *)
Lemma resize_loop_files sizes : forall created skipped w o w',
  loop sizes created skipped w = (o, w') ->
  exists written,
    files w' = files w ++ written
    /\ Forall (fun pn => exists size,
                 In size sizes /\ size <= limit
                 /\ fst pn = path_join output_dir
                               (output_name base_name size extension))
              written.
Proof.
  induction sizes as [| size rest IH]; intros created skipped w o w'.
  - intros [= <- <-]. exists []. rewrite app_nil_r. auto.
  - unfold loop. cbn [resize_loop]. unfold bind. fold one. fold loop.
    destruct (one size w) as [o1 w1] eqn:H1.
    assert (Hstep : exists written1,
               files w1 = files w ++ written1
               /\ Forall (fun pn => exists size0,
                            In size0 (size :: rest) /\ size0 <= limit
                            /\ fst pn = path_join output_dir
                                 (output_name base_name size0 extension))
                         written1).
    { destruct (resize_one_files _ _ _ _ H1) as [[Hf _] | (bytes & Hle & Hf & _)].
      - exists []. rewrite app_nil_r. auto.
      - exists [(path_join output_dir (output_name base_name size extension), bytes)].
        split; [exact Hf |]. constructor; [| constructor].
        exists size. simpl. auto. }
    destruct Hstep as (written1 & Hf1 & HF1).
    assert (Hrest : forall created1 skipped1,
               loop rest created1 skipped1 w1 = (o, w') ->
               exists written,
                 files w' = files w ++ written
                 /\ Forall (fun pn => exists size0,
                              In size0 (size :: rest) /\ size0 <= limit
                              /\ fst pn = path_join output_dir
                                   (output_name base_name size0 extension))
                           written).
    { intros created1 skipped1 H.
      apply IH in H as (written2 & Hf2 & HF2).
      exists (written1 ++ written2). rewrite Hf2, Hf1, app_assoc.
      split; [reflexivity |]. apply Forall_app. split; [exact HF1 |].
      eapply Forall_impl; [exact HF2 |]. simpl.
      intros pn (size0 & Hin & Hle & Hp). exists size0. auto. }
    destruct o1 as [[s | c] | e | code].
    + apply Hrest.
    + apply Hrest.
    + intros [= <- <-]. exists written1. auto.
    + intros [= <- <-]. exists written1. auto.
Qed.

(** In a loop that returns, the files written are those of the entries
    appended to the created list, one each and in the same order, and the
    [size_kb] of an entry is the length of its file over 1024. *)
Lemma resize_loop_writes sizes : forall created skipped w created' skipped' w',
  loop sizes created skipped w = (Return (created', skipped'), w') ->
  exists cs written,
    created' = created ++ cs
    /\ files w' = files w ++ written
    /\ Forall2 (fun c pn => fst pn = path c
                            /\ PyNum.truediv (snd pn) 1024 = inr (size_kb c))
               cs written.
Proof.
  induction sizes as [| size rest IH];
    intros created skipped w created' skipped' w'.
  - intros [= <- <- <-]. exists [], []. rewrite !app_nil_r. auto.
  - unfold loop. cbn [resize_loop]. unfold bind. fold one. fold loop.
    destruct (one size w) as [[[s | c] | e | code] w1] eqn:H1; try discriminate.
    + destruct (resize_one_files _ _ _ _ H1) as [[Hf _] | (bytes & _ & _ & Hc)].
      * intros H. apply IH in H as (cs & written & -> & Hf2 & HF).
        exists cs, written. rewrite Hf2, Hf. auto.
      * apply resize_one_inl in H1 as (_ & _ & ->).
        intros H. apply IH in H as (cs & written & -> & Hf2 & HF).
        exists cs, written. auto.
    + destruct (resize_one_files _ _ _ _ H1) as [[_ Hn] | (bytes & _ & Hf & Hc)].
      * exfalso. exact (Hn c eq_refl).
      * destruct (Hc c eq_refl) as [Hp Hkb].
        intros H. apply IH in H as (cs & written & -> & Hf2 & HF).
        exists (c :: cs),
          ((path_join output_dir (output_name base_name size extension), bytes)
             :: written).
        rewrite <- app_assoc. split; [reflexivity |].
        rewrite Hf2, Hf, <- app_assoc. split; [reflexivity |].
        constructor; [| exact HF]. simpl. auto.
Qed.

(** When every size is above the limit the loop returns, having created and
    written nothing. *)
Lemma resize_loop_all_skipped sizes : forall created skipped w,
  Forall (fun size => size > limit) sizes ->
  loop sizes created skipped w
  = (Return (created, skipped ++ map (fun size => (size, reason)) sizes), w).
Proof.
  induction sizes as [| size rest IH]; intros created skipped w HF.
  - simpl. rewrite app_nil_r. reflexivity.
  - inversion HF as [| ? ? Hgt HF']; subst.
    unfold loop. rewrite resize_loop_skip by exact Hgt. fold loop.
    rewrite IH by exact HF'. simpl. rewrite <- app_assoc. reflexivity.
Qed.
(** A size that is resolved goes to the resampler with the resolved pair;
    when the resampler raises, so does the iteration, and no file is
    written. *)
Lemma resize_one_resampler_raises size new_width new_height e w :
  new_dimensions dimension size orig_width orig_height
  = inr (Dims new_width new_height) ->
  img_resize img (new_width, new_height) = inl e ->
  one size w
  = (Raise e, warned w (resize_warnings img (new_width, new_height))).
Proof.
  intros Hd He. unfold one, resize_one, bind, lift, lib_warns.
  rewrite Hd. simpl. rewrite He. reflexivity.
Qed.
End LoopWrites.

(** [resize_image], step by step: the warnings of [Image.open], then the
    exit on an image that does not open, or the directory and the loop. *)
Lemma resize_image_steps `{PIL : Imaging}
    input_path output_dir sizes dimension quality w :
  resize_image input_path output_dir sizes dimension quality w
  = let w0 := warned w (open_warnings input_path) in
    match Image_open input_path with
    | inl e =>
        (SysExit 4,
         with_stderr w0 ["Error: Cannot read image: " +:+ path_str input_path;
                         "Details: " +:+ e])
    | inr img =>
        match path_mkdir output_dir with
        | Some e => (Raise e, w0)
        | None =>
            resize_loop img (fst (img_size img)) (snd (img_size img)) output_dir
              (stem input_path) (suffix input_path) dimension quality
              sizes [] [] (snd (made_dir output_dir w0))
        end
    end.
Proof.
  unfold resize_image. unfold bind at 1. unfold lib_warns. cbv zeta.
  destruct (Image_open input_path) as [e | img].
  - unfold bind, print_stderr, sys_exit, with_stderr. simpl.
    rewrite <- app_assoc. reflexivity.
  - destruct (img_size img) as [ow oh]. unfold bind at 1.
    destruct (path_mkdir output_dir); reflexivity.
Qed.

(** ** The whole call *)

Lemma feasible_infeasible_length limit (l : list Z) :
  (length (List.filter (feasible limit) l)
   + length (List.filter (infeasible limit) l) = length l)%nat.
Proof.
  induction l as [| x l IH]; [reflexivity |].
  cbn [List.filter]. unfold feasible at 1, infeasible at 1.
  destruct (x >? limit); cbn [negb length]; lia.
Qed.

Lemma Forall2_made_for_targets `{PIL : Imaging}
    output_dir base_name extension dimension ow oh sizes created :
  Forall2 (made_for output_dir base_name extension dimension ow oh) sizes created ->
  map (target_of dimension) created = sizes
  /\ map filename created
     = map (fun size => output_name base_name size extension) sizes.
Proof.
  induction 1 as [| size c sizes created (Ht & Hn & _) _ [IH1 IH2]]; simpl.
  - auto.
  - unfold target_of at 1. rewrite Ht, Hn, IH1, IH2. auto.
Qed.

(** A call that returns has decoded the image and run the loop to its end. *)
Lemma resize_image_returns `{PIL : Imaging}
    input_path output_dir sizes dimension quality w created skipped w' :
  resize_image input_path output_dir sizes dimension quality w
  = (Return (created, skipped), w') ->
  exists img,
    Image_open input_path = inr img
    /\ Forall2 (made_for output_dir (stem input_path) (suffix input_path)
                         dimension (fst (img_size img)) (snd (img_size img)))
               (List.filter (feasible (axis_limit dimension (fst (img_size img))
                                                  (snd (img_size img)))) sizes)
               created
    /\ skipped
       = map (fun s => (s, skip_reason dimension (fst (img_size img))
                                       (snd (img_size img))))
             (List.filter (infeasible (axis_limit dimension (fst (img_size img))
                                                  (snd (img_size img)))) sizes).
Proof.
  unfold resize_image.
  destruct (Image_open input_path) as [e | img]; [discriminate |].
  destruct (img_size img) as [ow oh] eqn:Hsize. simpl fst. simpl snd.
  unfold bind at 1.
  destruct (path_mkdir output_dir) as [e |]; [discriminate |].
  unfold made_dir at 1. intros H.
  apply resize_loop_returns in H as (cs & -> & HF & ->).
  exists img. rewrite Hsize. simpl. auto.
Qed.

(** ** Partition of the requested sizes *)

(** C2: a call of [resize_image] that returns gives back as many created
    plus skipped entries as there were sizes; the created entries are, in
    input order, those of the sizes not above the original dimension on the
    chosen axis, the skipped entries, in input order, those of the sizes above
    it, and every size is in exactly one of the two lists. *)
Theorem resize_image_partitions_sizes `{PIL : Imaging}
    input_path output_dir sizes dimension quality w created skipped w' :
  resize_image input_path output_dir sizes dimension quality w
  = (Return (created, skipped), w') ->
  exists img,
    Image_open input_path = inr img
    /\ let limit := axis_limit dimension (fst (img_size img)) (snd (img_size img)) in
       (length created + length skipped = length sizes)%nat
       /\ map (target_of dimension) created = List.filter (feasible limit) sizes
       /\ map fst skipped = List.filter (infeasible limit) sizes
       /\ (forall size, In size sizes ->
             (In size (map (target_of dimension) created)
              <-> ~ In size (map fst skipped))).
Proof.
  intros H. apply resize_image_returns in H as (img & Hopen & HF & ->).
  exists img. split; [exact Hopen |]. cbv zeta.
  set (limit := axis_limit dimension (fst (img_size img)) (snd (img_size img))) in *.
  apply Forall2_made_for_targets in HF as [Ht _].
  assert (Hs : forall (r : string) (l : list Z),
             map fst (map (fun s => (s, r)) l) = l).
  { intros r l. rewrite map_map. simpl. apply map_id. }
  rewrite Hs, Ht.
  split; [| split; [reflexivity | split; [reflexivity |]]].
  - rewrite length_map, <- (length_map (target_of dimension) created), Ht.
    apply feasible_infeasible_length.
  - intros size Hin. rewrite !filter_In. unfold feasible, infeasible.
    destruct (size >? limit); simpl; intuition congruence.
Qed.

Lemma resize_image_partitions_sizes_witness :
  exists created skipped w',
    Demo.run (Demo.rgb 1920 1080) [3840; 960] "width"
    = (Return (created, skipped), w')
    /\ (length created + length skipped = 2)%nat
    /\ map (target_of "width") created = [960]
    /\ map fst skipped = [3840].
Proof.
  eexists _, _, _.
  match goal with |- ?A /\ _ => assert (Hrun : A) by (vm_compute; reflexivity) end.
  split; [exact Hrun |].
  destruct (resize_image_partitions_sizes (PIL := Demo.imaging (Demo.rgb 1920 1080))
              Demo.photo "out" [3840; 960] "width" 90 empty_world _ _ _ Hrun)
    as (img & Himg & Hlen & Hc & Hs & _).
  injection Himg as <-.
  split; [exact Hlen |]. split; [exact Hc | exact Hs].
Defined.

(** ** Upscaling *)

(** C3: a size above the original dimension on the chosen axis is resolved
    to a skip whose reason names that dimension; the loop goes on with the
    remaining sizes, having only appended the pair of the size and the reason
    to the skipped list; and in a call that returns the size is among the
    skipped entries and no created entry was made for it. *)
Theorem upscale_is_skipped `{PIL : Imaging}
    input_path output_dir sizes dimension quality img size :
  Image_open input_path = inr img ->
  size > axis_limit dimension (fst (img_size img)) (snd (img_size img)) ->
  let ow := fst (img_size img) in
  let oh := snd (img_size img) in
  let reason :=
    if decide (dimension = "width")
    then "original is only " +:+ pretty ow +:+ "px wide"
    else "original is only " +:+ pretty oh +:+ "px tall" in
  new_dimensions dimension size ow oh = inr (Skip reason)
  /\ (forall rest created skipped w,
        resize_loop img ow oh output_dir (stem input_path) (suffix input_path)
                    dimension quality (size :: rest) created skipped w
        = resize_loop img ow oh output_dir (stem input_path) (suffix input_path)
                      dimension quality rest created (skipped ++ [(size, reason)]) w)
  /\ (forall w created skipped w',
        In size sizes ->
        resize_image input_path output_dir sizes dimension quality w
        = (Return (created, skipped), w') ->
        In (size, reason) skipped
        /\ ~ In size (map (target_of dimension) created)).
Proof.
  intros Hopen Hgt ow oh reason.
  change reason with (skip_reason dimension ow oh).
  subst ow oh. clear reason.
  split; [apply new_dimensions_skip; exact Hgt |].
  split; [intros; apply resize_loop_skip; exact Hgt |].
  intros w created skipped w' Hin Hrun.
  apply resize_image_returns in Hrun as (img' & Hopen' & HF & ->).
  rewrite Hopen in Hopen'. injection Hopen' as <-.
  apply Forall2_made_for_targets in HF as [Ht _].
  split.
  - apply in_map_iff. exists size. split; [reflexivity |].
    apply filter_In. split; [exact Hin |].
    unfold infeasible. apply Z.gtb_lt. lia.
  - rewrite Ht, filter_In. unfold feasible.
    intros [_ Hf]. apply negb_true_iff in Hf.
    rewrite Z.gtb_ltb in Hf. apply Z.ltb_ge in Hf. lia.
Qed.

Lemma upscale_is_skipped_witness :
  new_dimensions "width" 3840 1920 1080 = inr (Skip "original is only 1920px wide")
  /\ exists created w',
       Demo.run (Demo.rgb 1920 1080) [3840; 960] "width"
       = (Return (created, [(3840, "original is only 1920px wide")]), w')
       /\ ~ In 3840 (map (target_of "width") created).
Proof.
  destruct (upscale_is_skipped (PIL := Demo.imaging (Demo.rgb 1920 1080))
              Demo.photo "out" [3840; 960] "width" 90
              {| Demo.im_mode := "RGB"; Demo.im_size := (1920, 1080) |} 3840
              eq_refl eq_refl)
    as (Hskip & _ & Hrun).
  split; [exact Hskip |].
  eexists _, _.
  match goal with |- ?A /\ _ => assert (Hret : A) by (vm_compute; reflexivity) end.
  split; [exact Hret |].
  apply (Hrun empty_world _ [(3840, "original is only 1920px wide")] _
              (or_introl eq_refl) Hret).
Defined.

(** ** Names of the files written *)

Lemma string_app_cons a (s t : string) : String a s +:+ t = String a (s +:+ t).
Proof. reflexivity. Qed.

Lemma string_app_nil (t : string) : "" +:+ t = t.
Proof. reflexivity. Qed.

Lemma string_app_inv_head (s t1 t2 : string) : s +:+ t1 = s +:+ t2 -> t1 = t2.
Proof.
  induction s as [| a s IH]; rewrite ?string_app_nil, ?string_app_cons; [auto |].
  intros [= H]. auto.
Qed.

Lemma string_app_length (s t : string) :
  String.length (s +:+ t) = (String.length s + String.length t)%nat.
Proof.
  induction s as [| a s IH]; rewrite ?string_app_nil, ?string_app_cons;
    cbn [String.length]; [reflexivity |].
  rewrite IH. reflexivity.
Qed.

Lemma string_app_inv_tail (t s1 s2 : string) : s1 +:+ t = s2 +:+ t -> s1 = s2.
Proof.
  revert s2. induction s1 as [| a s1 IH]; intros [| b s2] H.
  - reflexivity.
  - apply (f_equal String.length) in H.
    rewrite string_app_nil, string_app_length in H.
    cbn [String.length] in H. lia.
  - apply (f_equal String.length) in H.
    rewrite string_app_nil, string_app_length in H.
    cbn [String.length] in H. lia.
  - rewrite !string_app_cons in H. injection H as -> H. f_equal. auto.
Qed.

(** The name is injective in the size. *)
Lemma output_name_inj base ext s1 s2 :
  output_name base s1 ext = output_name base s2 ext -> s1 = s2.
Proof.
  unfold output_name. intros H.
  apply string_app_inv_head, string_app_inv_head, string_app_inv_tail in H.
  apply (inj pretty) in H. exact H.
Qed.

(** C9: in a call that returns, the file names of the created entries are,
    in order, the stem of the source, an underscore, the size in decimal and
    the suffix of the source, for each size not above the limit, each
    occurrence of a repeated size included; two sizes with the same name are
    the same size, and one size always has the same name. *)
Theorem created_file_names `{PIL : Imaging}
    input_path output_dir sizes dimension quality w created skipped w' :
  resize_image input_path output_dir sizes dimension quality w
  = (Return (created, skipped), w') ->
  (exists img,
     Image_open input_path = inr img
     /\ map filename created
        = map (fun size => stem input_path +:+ "_" +:+ pretty size
                             +:+ suffix input_path)
              (List.filter
                 (fun size => negb (size >? axis_limit dimension
                                       (fst (img_size img)) (snd (img_size img))))
                 sizes)
     /\ Forall (fun c => path c = path_join output_dir (filename c)) created)
  /\ (forall s1 s2 : Z,
        stem input_path +:+ "_" +:+ pretty s1 +:+ suffix input_path
        = stem input_path +:+ "_" +:+ pretty s2 +:+ suffix input_path
        <-> s1 = s2).
Proof.
  intros H. apply resize_image_returns in H as (img & Hopen & HF & _). split.
  - exists img. split; [exact Hopen |].
    split; [apply (Forall2_made_for_targets _ _ _ _ _ _ _ _ HF) |].
    clear - HF. induction HF as [| size c sizes0 created0 (_ & _ & Hp & _) _ IH];
      constructor; auto.
  - intros s1 s2. split; [apply output_name_inj | intros ->; reflexivity].
Qed.

Lemma created_file_names_witness :
  exists created skipped w',
    Demo.run (Demo.rgb 500 500) [100; 100] "width" = (Return (created, skipped), w')
    /\ map filename created = ["photo_100.jpg"; "photo_100.jpg"].
Proof.
  eexists _, _, _.
  match goal with |- ?A /\ _ => assert (Hrun : A) by (vm_compute; reflexivity) end.
  split; [exact Hrun |].
  destruct (created_file_names (PIL := Demo.imaging (Demo.rgb 500 500))
              Demo.photo "out" [100; 100] "width" 90 empty_world _ _ _ Hrun)
    as ((img & Himg & Hnames & _) & _).
  injection Himg as <-. exact Hnames.
Defined.

(** ** The axis argument *)



(** ** The derived dimension *)

(** A size that fits: the dimensions are resolved, the chosen axis gets the
    size and the other axis the scaled value. *)
Lemma new_dimensions_feasible dimension size ow oh :
  0 < ow -> 0 < oh -> ow * oh < 2 ^ 51 ->
  0 < size <= axis_limit dimension ow oh ->
  exists d,
    new_dimensions dimension size ow oh
    = inr (if decide (dimension = "width") then Dims size d else Dims d size)
    /\ size * axis_other dimension ow oh / axis_limit dimension ow oh - 1 <= d
       <= size * axis_other dimension ow oh / axis_limit dimension ow oh
    /\ 0 <= d
    /\ (axis_limit dimension ow oh < size * axis_other dimension ow oh -> 1 <= d).
Proof.
  intros How Hoh Hpix [Hs Hle].
  rewrite new_dimensions_unfold.
  destruct (Z.gtb_spec size (axis_limit dimension ow oh)) as [Hgt | _]; [lia |].
  destruct (scale_bounds size (axis_limit dimension ow oh)
              (axis_other dimension ow oh)) as (d & Hd & Hwin & H0 & H1); try lia.
  - unfold axis_other. destruct (decide (dimension = "width")); lia.
  - unfold axis_limit, axis_other. destruct (decide (dimension = "width")); lia.
  - exists d. rewrite Hd. cbn [rbind]. auto.
Qed.

(** C5: a size equal to the original dimension on the chosen axis is not
    skipped, and the dimensions resolved for it are the original width and
    height (both below [2^53], beyond which a float no longer holds every
    integer). *)
Theorem equal_size_keeps_dimensions dimension orig_width orig_height :
  0 < orig_width < 2 ^ 53 -> 0 < orig_height < 2 ^ 53 ->
  new_dimensions dimension (axis_limit dimension orig_width orig_height)
                 orig_width orig_height
  = inr (Dims orig_width orig_height).
Proof.
  intros Hw Hh.
  assert (Hbig : 2 ^ 53 < 2 ^ 1000) by (apply Z.pow_lt_mono_r; lia).
  rewrite <- two53_eq in Hw, Hh.
  unfold new_dimensions, axis_limit.
  destruct (decide (dimension = "width")).
  - destruct (Z.gtb_spec orig_width orig_width); [lia |].
    rewrite scale_same by (rewrite ?two53_eq in *; lia). reflexivity.
  - destruct (Z.gtb_spec orig_height orig_height); [lia |].
    rewrite scale_same by (rewrite ?two53_eq in *; lia). reflexivity.
Qed.

Lemma equal_size_keeps_dimensions_witness :
  new_dimensions "width" 500 500 500 = inr (Dims 500 500).
Proof.
  apply (equal_size_keeps_dimensions "width" 500 500); split; reflexivity.
Defined.

(** C1, as the code has it: for a size that fits (positive, not above the
    original dimension on the chosen axis, the image having fewer than [2^51]
    pixels) the output dimension on the chosen axis is the size, hence at
    least 1, and the derived dimension is at least 0; it is at least 1 as
    soon as the size times the other original dimension exceeds the original
    dimension on the axis. *)
Theorem feasible_dimensions dimension size orig_width orig_height :
  0 < orig_width -> 0 < orig_height -> orig_width * orig_height < 2 ^ 51 ->
  0 < size <= axis_limit dimension orig_width orig_height ->
  exists new_width new_height,
    new_dimensions dimension size orig_width orig_height
    = inr (Dims new_width new_height)
    /\ on_axis dimension new_width new_height = size
    /\ 1 <= on_axis dimension new_width new_height
    /\ 0 <= off_axis dimension new_width new_height
    /\ (axis_limit dimension orig_width orig_height
        < size * axis_other dimension orig_width orig_height ->
        1 <= off_axis dimension new_width new_height).
Proof.
  intros How Hoh Hpix Hsize.
  destruct (new_dimensions_feasible dimension size orig_width orig_height
              How Hoh Hpix Hsize) as (d & Hd & _ & H0 & H1).
  unfold on_axis, off_axis.
  destruct (decide (dimension = "width")).
  - exists size, d. repeat split; auto; lia.
  - exists d, size. repeat split; auto; lia.
Qed.

Lemma feasible_dimensions_witness :
  exists new_width new_height,
    new_dimensions "width" 960 1920 1080 = inr (Dims new_width new_height)
    /\ 1 <= new_width /\ 1 <= new_height.
Proof.
  destruct (feasible_dimensions "width" 960 1920 1080)
    as (nw & nh & Hd & _ & Hon & _ & Hoff);
    [reflexivity | reflexivity | reflexivity | split; [reflexivity | discriminate] |].
  exists nw, nh. split; [exact Hd |]. split; [exact Hon |].
  apply Hoff. reflexivity.
Defined.

(** C1 as stated fails: a 1920x1080 image at width 1 gives height 0, and so
    does a 49x49 image, for which the exact quotient is 1. *)
Lemma feasible_dimension_can_be_zero :
  ~ (forall dimension size orig_width orig_height new_width new_height,
       0 < orig_width -> 0 < orig_height ->
       0 < size <= axis_limit dimension orig_width orig_height ->
       new_dimensions dimension size orig_width orig_height
       = inr (Dims new_width new_height) ->
       1 <= new_width /\ 1 <= new_height).
Proof.
  intros H.
  assert (E : new_dimensions "width" 1 1920 1080 = inr (Dims 1 0))
    by (vm_compute; reflexivity).
  destruct (H "width" 1 1920 1080 1 0) as [_ Hh]; try lia.
  - split; [lia | discriminate].
  - exact E.
Qed.

Example square_49_at_width_1 :
  new_dimensions "width" 1 49 49 = inr (Dims 1 0).
Proof. vm_compute. reflexivity. Qed.

(** C4, as the code has it: for a size that fits, on an image of fewer
    than [2^51] pixels, the derived dimension is the truncation of the
    binary64 product [(size / limit) * other], rounded once after the division
    and once after the multiplication.  It is the floor of the exact quotient
    [size * other / limit] whenever that quotient is not an integer; when it
    is an integer, the derived dimension is that integer or one less.  So the
    exact quotient lies from the derived dimension up to at most one above
    it. *)
Theorem derived_dimension_window dimension size orig_width orig_height :
  0 < orig_width -> 0 < orig_height -> orig_width * orig_height < 2 ^ 51 ->
  0 < size <= axis_limit dimension orig_width orig_height ->
  exists new_width new_height quotient product,
    new_dimensions dimension size orig_width orig_height
    = inr (Dims new_width new_height)
    /\ let other := axis_other dimension orig_width orig_height in
       let limit := axis_limit dimension orig_width orig_height in
       let exact := size * other in
       let derived := off_axis dimension new_width new_height in
       PyNum.truediv size limit = inr quotient
       /\ PyNum.float_mul_int quotient other = inr product
       /\ PyNum.int_of_float product = inr derived
       /\ (exact mod limit <> 0 -> derived = exact / limit)
       /\ (exact mod limit = 0 ->
           derived = exact / limit \/ derived = exact / limit - 1)
       /\ derived * limit <= exact <= (derived + 1) * limit.
Proof.
  intros How Hoh Hpix Hsize.
  destruct (new_dimensions_feasible dimension size orig_width orig_height
              How Hoh Hpix Hsize) as (d & Hd & Hwin & _ & _).
  set (limit := axis_limit dimension orig_width orig_height) in *.
  set (other := axis_other dimension orig_width orig_height) in *.
  assert (Hlim : 0 < limit) by lia.
  assert (Hoth : 0 < other)
    by (unfold other, axis_other; destruct (decide (dimension = "width")); lia).
  assert (Hprod : limit * other < 2 ^ 51).
  { unfold limit, other, axis_limit, axis_other.
    destruct (decide (dimension = "width")); lia. }
  pose proof (new_dimensions_Dims_inv dimension size orig_width orig_height
                (if decide (dimension = "width") then size else d)
                (if decide (dimension = "width") then d else size)) as Hinv.
  assert (Hscale : PyNum.scale size limit other = inr d).
  { destruct Hinv as (_ & _ & Hs).
    - rewrite Hd. destruct (decide (dimension = "width")); reflexivity.
    - fold limit other in Hs. rewrite Hs. unfold off_axis.
      destruct (decide (dimension = "width")); reflexivity. }
  destruct (scale_steps _ _ _ _ Hscale) as (q & p & Hq & Hp & Hi).
  assert (Hfloor : (size * other) mod limit <> 0 -> d = size * other / limit).
  { intros Hrem.
    pose proof (scale_floor size limit other ltac:(lia) ltac:(lia) Hoth Hprod
                  Hrem) as Hs.
    congruence. }
  pose proof (Z.div_mod (size * other) limit ltac:(lia)) as Ediv.
  pose proof (Z.mod_pos_bound (size * other) limit Hlim) as Bmod.
  assert (Hgoal : d * limit <= size * other <= (d + 1) * limit).
  { destruct (Z.eq_dec ((size * other) mod limit) 0) as [E | E].
    - nia.
    - rewrite (Hfloor E). nia. }
  exists (if decide (dimension = "width") then size else d),
         (if decide (dimension = "width") then d else size), q, p.
  split.
  { rewrite Hd. destruct (decide (dimension = "width")); reflexivity. }
  cbv zeta.
  assert (Hoff : off_axis dimension
                   (if decide (dimension = "width") then size else d)
                   (if decide (dimension = "width") then d else size) = d).
  { unfold off_axis. destruct (decide (dimension = "width")); reflexivity. }
  rewrite Hoff.
  split; [exact Hq |]. split; [exact Hp |]. split; [exact Hi |].
  split; [exact Hfloor |]. split; [| exact Hgoal].
  intros _. lia.
Qed.

Lemma derived_dimension_window_witness :
  (exists new_width new_height,
     new_dimensions "width" 300 1920 1080 = inr (Dims new_width new_height)
     /\ new_height = 168)
  /\ (exists new_width new_height,
        new_dimensions "width" 29 100 100 = inr (Dims new_width new_height)
        /\ (new_height = 29 \/ new_height = 28)).
Proof.
  split.
  - destruct (derived_dimension_window "width" 300 1920 1080)
      as (nw & nh & q & p & Hd & _ & _ & _ & Hfloor & _);
      [reflexivity | reflexivity | reflexivity
      | split; [reflexivity | discriminate] |].
    exists nw, nh. split; [exact Hd |].
    cbv zeta in Hfloor. apply Hfloor. discriminate.
  - destruct (derived_dimension_window "width" 29 100 100)
      as (nw & nh & q & p & Hd & _ & _ & _ & _ & Hint & _);
      [reflexivity | reflexivity | reflexivity
      | split; [reflexivity | discriminate] |].
    exists nw, nh. split; [exact Hd |].
    cbv zeta in Hint. apply Hint. reflexivity.
Defined.

(** C4 as stated fails: on a 100x100 image the width 29 gives the height 28,
    while the floor of the exact product is 29. *)
Lemma derived_dimension_not_floor :
  ~ (forall dimension size orig_width orig_height new_width new_height,
       0 < orig_width -> 0 < orig_height ->
       0 < size <= axis_limit dimension orig_width orig_height ->
       new_dimensions dimension size orig_width orig_height
       = inr (Dims new_width new_height) ->
       off_axis dimension new_width new_height
       = size * axis_other dimension orig_width orig_height
         / axis_limit dimension orig_width orig_height).
Proof.
  intros H.
  assert (E : new_dimensions "width" 29 100 100 = inr (Dims 29 28))
    by (vm_compute; reflexivity).
  specialize (H "width" 29 100 100 29 28).
  discriminate H; try lia; [split; [lia | discriminate] | exact E].
Qed.

(** ** Non-positive sizes *)

Lemma any_nonpositive_Exists sizes :
  any_nonpositive sizes = true <-> Exists (fun s => s <= 0) sizes.
Proof.
  unfold any_nonpositive. rewrite existsb_exists, List.Exists_exists.
  split; intros (s & Hin & Hs); exists s; (split; [exact Hin |]).
  - apply Z.leb_le. exact Hs.
  - apply Z.leb_le. exact Hs.
Qed.

Lemma parse_sizes_positive `{PIL : Imaging} size_str sizes :
  parse_sizes size_str = inr sizes -> Forall (fun s => 0 < s) sizes.
Proof.
  unfold parse_sizes.
  destruct (mapM_result _ _) as [e | l]; cbn [rbind].
  - destruct e; discriminate.
  - destruct (any_nonpositive l) eqn:Hany; [discriminate |].
    intros [= <-]. apply List.Forall_forall. intros s Hin.
    destruct (Z.leb_spec s 0) as [Hle | Hlt]; [| exact Hlt].
    exfalso. assert (Ht : any_nonpositive l = true).
    { apply any_nonpositive_Exists, List.Exists_exists. eauto. }
    congruence.
Qed.

(** C6, as the code has it: the check is made by [parse_sizes], ahead of
    the pipeline.  When the text given for [--width] or [--height] parses to
    integers one of which is not positive, [parse_sizes] raises, and
    [cmd_resize] ends with that exception from an unchanged world, before
    [resize_image] is called; [parse_sizes] returns positive sizes only. *)
Theorem nonpositive_size_rejected_by_parse_sizes `{PIL : Imaging}
    args dimension size_str sizes w :
  path_exists (path_of (arg_input args)) = true ->
  validate_jpeg (path_of (arg_input args)) = true ->
  requested_sizes args = Some (dimension, size_str) ->
  mapM_result (fun s => int_of_str (str_strip s)) (split_on "," size_str)
  = inr sizes ->
  Exists (fun s => s <= 0) sizes ->
  parse_sizes size_str
  = inl (ArgumentTypeError "Invalid size format: Sizes must be positive integers")
  /\ cmd_resize args w
     = (Raise (ArgumentTypeError
                 "Invalid size format: Sizes must be positive integers"), w)
  /\ (forall s l, parse_sizes s = inr l -> Forall (fun x => 0 < x) l).
Proof.
  intros Hex Hjpeg Hreq Hints Hbad.
  assert (Hparse : parse_sizes size_str
                   = inl (ArgumentTypeError
                            "Invalid size format: Sizes must be positive integers")).
  { unfold parse_sizes. rewrite Hints. cbn [rbind].
    apply any_nonpositive_Exists in Hbad. rewrite Hbad. reflexivity. }
  split; [exact Hparse |]. split; [| intros s l; apply parse_sizes_positive].
  unfold cmd_resize. rewrite Hex, Hjpeg. cbn [negb].
  unfold bind at 1.
  assert (Hds : dimension_and_sizes args w
                = (Raise (ArgumentTypeError
                            "Invalid size format: Sizes must be positive integers"), w)).
  { unfold dimension_and_sizes. unfold requested_sizes in Hreq.
    destruct (truthy (arg_width args) && truthy (arg_height args));
      [discriminate |].
    destruct (truthy (arg_width args)).
    - injection Hreq as _ ->. unfold bind, lift. rewrite Hparse. reflexivity.
    - destruct (truthy (arg_height args)); [| discriminate].
      injection Hreq as _ ->. unfold bind, lift. rewrite Hparse. reflexivity. }
  rewrite Hds. reflexivity.
Qed.

Lemma nonpositive_size_rejected_by_parse_sizes_witness :
  @cmd_resize (Demo.imaging (Demo.rgb 1920 1080))
    {| arg_input := "photo.jpg"; arg_output := "out";
       arg_width := Some "300,0"; arg_height := None; arg_quality := 90 |}
    empty_world
  = (Raise (ArgumentTypeError "Invalid size format: Sizes must be positive integers"),
     empty_world).
Proof.
  apply (nonpositive_size_rejected_by_parse_sizes
           (PIL := Demo.imaging (Demo.rgb 1920 1080))
           {| arg_input := "photo.jpg"; arg_output := "out";
              arg_width := Some "300,0"; arg_height := None; arg_quality := 90 |}
           "width" "300,0" [300; 0] empty_world).
  - reflexivity.
  - reflexivity.
  - reflexivity.
  - vm_compute. reflexivity.
  - apply Exists_cons_tl, Exists_cons_hd. lia.
Defined.

(** C6 as stated fails for [resize_image] itself, which checks nothing: with
    sizes 100 and 0 on a 200x200 image the file for 100 is written before the
    size 0 reaches the resampler, which is the one to refuse it. *)
Lemma nonpositive_size_reaches_the_loop :
  ~ (forall (PIL : Imaging) input_path output_dir sizes dimension quality w,
       Exists (fun s => s <= 0) sizes ->
       exists e w',
         resize_image input_path output_dir sizes dimension quality w
         = (Raise e, w')
         /\ files w' = files w).
Proof.
  intros H.
  destruct (H (Demo.imaging (Demo.rgb 200 200)) Demo.photo "out" [100; 0]
              "width" 90 empty_world) as (e & w' & Hrun & Hfiles).
  - apply Exists_cons_tl, Exists_cons_hd. lia.
  - assert (E : @resize_image (Demo.imaging (Demo.rgb 200 200)) Demo.photo "out"
                  [100; 0] "width" 90 empty_world
                = (Raise (ValueError "height and width must be > 0"),
                   {| stdout := []; stderr := []; dirs := ["out"];
                      files := [("out/photo_100.jpg", 10000)];
                      warnings := [] |}))
      by (vm_compute; reflexivity).
    rewrite E in Hrun. injection Hrun as _ <-. discriminate Hfiles.
Qed.

(** ** Console and process *)

(** C7, as the code has it: when [Image.open] raises, [resize_image] prints
    two lines on the standard error stream, after whatever Pillow wrote there
    itself, and exits the process with status 4, before any directory is made
    or any size is looked at.  When [Image.open] returns, [resize_image]
    never exits the process and prints nothing itself: the standard output is
    untouched, and the only lines added to the standard error stream are
    lines that libraries write there (warnings); the call returns the two
    lists or lets an exception through.  An image that fails to decode only
    in [img.resize] is such an exception, not an exit: when the resampler
    raises for the first size that is not skipped, the call raises the same
    exception, with the output directory made and no file written. *)
Theorem resize_image_console_and_exit `{PIL : Imaging}
    input_path output_dir sizes dimension quality w :
  match Image_open input_path with
  | inl e =>
      resize_image input_path output_dir sizes dimension quality w
      = (SysExit 4,
         {| stdout := stdout w;
            stderr := stderr w ++ open_warnings input_path (warnings w)
                        ++ ["Error: Cannot read image: " +:+ path_str input_path;
                            "Details: " +:+ e];
            dirs := dirs w;
            files := files w;
            warnings := warnings w ++ open_warnings input_path (warnings w) |})
  | inr img =>
      (forall o w',
         resize_image input_path output_dir sizes dimension quality w = (o, w') ->
         stdout w' = stdout w
         /\ only_libraries_wrote w w'
         /\ (forall code, o <> SysExit code))
      /\ (forall skipped_first size rest new_width new_height e,
            sizes = skipped_first ++ size :: rest ->
            Forall (fun s => s > axis_limit dimension (fst (img_size img))
                                            (snd (img_size img)))
                   skipped_first ->
            path_mkdir output_dir = None ->
            new_dimensions dimension size (fst (img_size img)) (snd (img_size img))
            = inr (Dims new_width new_height) ->
            img_resize img (new_width, new_height) = inl e ->
            exists w',
              resize_image input_path output_dir sizes dimension quality w
              = (Raise e, w')
              /\ stdout w' = stdout w
              /\ only_libraries_wrote w w'
              /\ dirs w' = dirs w ++ [output_dir]
              /\ files w' = files w)
  end.
Proof.
  rewrite resize_image_steps. cbv zeta.
  destruct (Image_open input_path) as [e | img].
  - unfold with_stderr, warned. cbn [stdout stderr dirs files warnings].
    rewrite <- app_assoc. reflexivity.
  - set (w0 := warned w (open_warnings input_path)).
    assert (L0 : only_libraries_wrote w w0)
      by apply only_libraries_wrote_warned.
    split.
    + intros o w'. destruct (path_mkdir output_dir) as [e |].
      * intros [= <- <-]. repeat split; try discriminate. exact L0.
      * intros Hloop.
        apply resize_loop_quiet in Hloop as (Ho & He & _ & Hx).
        split; [exact Ho |]. split; [| exact Hx].
        eapply only_libraries_wrote_trans; [exact L0 |].
        destruct He as (l & He & Hw). exists l. auto.
    + intros skipped_first size rest nw nh e -> Hskip Hmk Hd He.
      rewrite Hmk, resize_loop_app, resize_loop_all_skipped by exact Hskip.
      cbn [resize_loop]. unfold bind.
      rewrite (resize_one_resampler_raises _ _ _ _ _ _ _ _ _ _ _ _ _ Hd He).
      eexists. split; [reflexivity |].
      repeat split.
      exists (open_warnings input_path (warnings w)
                ++ resize_warnings img (nw, nh) (warnings w0)).
      subst w0. unfold warned, made_dir.
      cbn [stdout stderr dirs files warnings snd].
      rewrite <- ?app_assoc. auto.
Qed.

Lemma resize_image_console_and_exit_witness :
  Demo.run (inl "cannot identify image file") [100] "width"
  = (SysExit 4,
     {| stdout := [];
        stderr := ["Error: Cannot read image: photo.jpg";
                   "Details: cannot identify image file"];
        dirs := []; files := []; warnings := [] |})
  /\ exists created w',
       Demo.run (Demo.rgb 10000 9000) [20000; 5000] "width"
       = (Return (created, [(20000, "original is only 10000px wide")]), w')
       /\ stdout w' = []
       /\ stderr w'
          = ["DecompressionBombWarning: Image size (90000000 pixels) exceeds limit of 89478485 pixels, could be decompression bomb DOS attack."]
       /\ warnings w' = stderr w'.
Proof.
  split.
  - apply (resize_image_console_and_exit
             (PIL := Demo.imaging (inl "cannot identify image file"))
             Demo.photo "out" [100] "width" 90 empty_world).
  - eexists _, _.
    match goal with
    | |- ?A /\ _ => assert (Hrun : A) by (vm_compute; reflexivity)
    end.
    split; [exact Hrun |].
    destruct (resize_image_console_and_exit
                (PIL := Demo.imaging (Demo.rgb 10000 9000))
                Demo.photo "out" [20000; 5000] "width" 90 empty_world)
      as [Hquiet _].
    destruct (Hquiet _ _ Hrun) as (Ho & _ & _).
    split; [exact Ho |]. split; reflexivity.
Defined.

(** C7 as stated fails: on a file that [Image.open] cannot read the call
    writes to the console and exits the process. *)
Lemma resize_image_exits_on_decode_failure :
  ~ (forall (PIL : Imaging) input_path output_dir sizes dimension quality w o w',
       resize_image input_path output_dir sizes dimension quality w = (o, w') ->
       (forall code, o <> SysExit code)
       /\ stdout w' = stdout w /\ stderr w' = stderr w).
Proof.
  intros H.
  destruct (H (Demo.imaging (inl "cannot identify image file")) Demo.photo "out"
              [100] "width" 90 empty_world _ _ eq_refl) as (Hx & _ & _).
  exact (Hx 4 eq_refl).
Qed.

(** ** Colour modes *)

Ltac in_list := repeat (apply list_elem_of_here || apply list_elem_of_further).

Ltac cases_in_list H :=
  repeat (apply elem_of_cons in H as [H | H]); [.. | apply elem_of_nil in H].

Lemma normalize_mode_alpha `{PIL : Imaging} (im : Img) :
  img_mode im = "RGBA" \/ img_mode im = "LA" ->
  normalize_mode im
  = img_paste (Image_new "RGB" (img_size im) (255, 255, 255)) im
              (Some (img_last_band im)).
Proof.
  intros Hm. unfold normalize_mode.
  destruct (decide (img_mode im ∈ ["RGBA"; "LA"; "P"])) as [_ | Hn];
    [| exfalso; apply Hn; destruct Hm as [-> | ->]; in_list].
  destruct (decide (img_mode im = "P")) as [HP | _];
    [destruct Hm as [Hm | Hm]; rewrite Hm in HP; discriminate |].
  destruct (decide (img_mode im ∈ ["RGBA"; "LA"])) as [_ | Hn];
    [reflexivity | exfalso; apply Hn; destruct Hm as [-> | ->]; in_list].
Qed.

Lemma normalize_mode_palette `{PIL : Imaging} {Modes : PillowModes PIL} (im : Img) :
  img_mode im = "P" ->
  normalize_mode im
  = img_paste (Image_new "RGB" (img_size im) (255, 255, 255))
              (img_convert im "RGBA")
              (Some (img_last_band (img_convert im "RGBA"))).
Proof.
  intros Hm. unfold normalize_mode.
  destruct (decide (img_mode im ∈ ["RGBA"; "LA"; "P"])) as [_ | Hn];
    [| exfalso; apply Hn; rewrite Hm; in_list].
  destruct (decide (img_mode im = "P")) as [_ | Hn]; [| contradiction].
  rewrite convert_mode.
  destruct (decide ("RGBA" ∈ ["RGBA"; "LA"])) as [_ | Hn];
    [reflexivity | exfalso; apply Hn; in_list].
Qed.

Lemma normalize_mode_opaque `{PIL : Imaging} (im : Img) :
  img_mode im <> "RGBA" -> img_mode im <> "LA" -> img_mode im <> "P" ->
  normalize_mode im
  = if decide (img_mode im = "RGB") then im else img_convert im "RGB".
Proof.
  intros H1 H2 H3. unfold normalize_mode.
  destruct (decide (img_mode im ∈ ["RGBA"; "LA"; "P"])) as [Hin | _].
  - exfalso. cases_in_list Hin; auto.
  - destruct (decide (img_mode im ≠ "RGB")) as [Hne | He];
      destruct (decide (img_mode im = "RGB")); try reflexivity; contradiction.
Qed.

(** C8: whatever the mode of the resampled image, the image handed to the
    encoder has mode RGB and the size of the resampled image.  An RGBA or LA
    image is pasted on a white RGB image of its size with its last band, the
    alpha band, as mask; a P image is first converted to RGBA and then pasted
    the same way; an image in any other mode than RGB is converted to RGB; an
    RGB image is left as it is. *)
Theorem normalize_mode_gives_rgb `{PIL : Imaging} {Modes : PillowModes PIL}
    (resized_img : Img) :
  img_mode (normalize_mode resized_img) = "RGB"
  /\ img_size (normalize_mode resized_img) = img_size resized_img
  /\ (img_mode resized_img = "RGBA" \/ img_mode resized_img = "LA" ->
      normalize_mode resized_img
      = img_paste (Image_new "RGB" (img_size resized_img) (255, 255, 255))
                  resized_img (Some (img_last_band resized_img)))
  /\ (img_mode resized_img = "P" ->
      normalize_mode resized_img
      = img_paste (Image_new "RGB" (img_size resized_img) (255, 255, 255))
                  (img_convert resized_img "RGBA")
                  (Some (img_last_band (img_convert resized_img "RGBA"))))
  /\ (img_mode resized_img <> "RGBA" -> img_mode resized_img <> "LA" ->
      img_mode resized_img <> "P" -> img_mode resized_img <> "RGB" ->
      normalize_mode resized_img = img_convert resized_img "RGB")
  /\ (img_mode resized_img = "RGB" -> normalize_mode resized_img = resized_img).
Proof.
  assert (Hrgb : img_mode (normalize_mode resized_img) = "RGB"
                 /\ img_size (normalize_mode resized_img) = img_size resized_img).
  { destruct (decide (img_mode resized_img = "RGBA")) as [H1 | H1];
      [rewrite normalize_mode_alpha by auto;
       rewrite paste_mode, paste_size, new_mode, new_size; auto |].
    destruct (decide (img_mode resized_img = "LA")) as [H2 | H2];
      [rewrite normalize_mode_alpha by auto;
       rewrite paste_mode, paste_size, new_mode, new_size; auto |].
    destruct (decide (img_mode resized_img = "P")) as [H3 | H3];
      [rewrite normalize_mode_palette by auto;
       rewrite paste_mode, paste_size, new_mode, new_size; auto |].
    rewrite normalize_mode_opaque by auto.
    destruct (decide (img_mode resized_img = "RGB")); [auto |].
    rewrite convert_mode, convert_size. auto. }
  destruct Hrgb as [Hm Hs].
  split; [exact Hm |]. split; [exact Hs |].
  split; [apply normalize_mode_alpha |].
  split; [apply normalize_mode_palette |].
  split.
  - intros H1 H2 H3 H4. rewrite normalize_mode_opaque by auto.
    destruct (decide (img_mode resized_img = "RGB")); [contradiction | reflexivity].
  - intros HR. rewrite normalize_mode_opaque by (rewrite HR; discriminate).
    destruct (decide (img_mode resized_img = "RGB")); [reflexivity | contradiction].
Qed.

Lemma demo_modes source : PillowModes (Demo.imaging source).
Proof. split; reflexivity. Qed.

Lemma normalize_mode_gives_rgb_witness :
  @img_mode (Demo.imaging (Demo.rgb 1 1))
    (@normalize_mode (Demo.imaging (Demo.rgb 1 1))
       {| Demo.im_mode := "P"; Demo.im_size := (4, 3) |}) = "RGB"
  /\ @img_size (Demo.imaging (Demo.rgb 1 1))
       (@normalize_mode (Demo.imaging (Demo.rgb 1 1))
          {| Demo.im_mode := "P"; Demo.im_size := (4, 3) |}) = (4, 3).
Proof.
  destruct (normalize_mode_gives_rgb
              (PIL := Demo.imaging (Demo.rgb 1 1))
              (Modes := demo_modes (Demo.rgb 1 1))
              {| Demo.im_mode := "P"; Demo.im_size := (4, 3) |})
    as (Hm & Hs & _).
  split; [exact Hm | exact Hs].
Defined.

(** * Further properties of the code *)


(** X1: the loop over a concatenation of size lists is the loop over the
    first list followed, when that one returns, by the loop over the second
    list from the lists and the world the first one left; an exception or an
    exit in the first part ends the whole loop there. *)
Theorem resize_loop_composes `{PIL : Imaging}
    img orig_width orig_height output_dir base_name extension dimension quality
    l1 l2 created skipped w :
  resize_loop img orig_width orig_height output_dir base_name extension
              dimension quality (l1 ++ l2) created skipped w
  = match resize_loop img orig_width orig_height output_dir base_name extension
                      dimension quality l1 created skipped w with
    | (Return (created1, skipped1), w1) =>
        resize_loop img orig_width orig_height output_dir base_name extension
                    dimension quality l2 created1 skipped1 w1
    | (Raise e, w1) => (Raise e, w1)
    | (SysExit code, w1) => (SysExit code, w1)
    end.
Proof. apply resize_loop_app. Qed.

(** X2: an exception raised for one size ends the loop with that exception:
    the sizes after it are not looked at, and the files written for the sizes
    before it stay written, one per entry created so far. *)
Theorem resize_loop_stops_at_first_error `{PIL : Imaging}
    img orig_width orig_height output_dir base_name extension dimension quality
    l1 size l2 created skipped w created1 skipped1 w1 e w2 :
  resize_loop img orig_width orig_height output_dir base_name extension
              dimension quality l1 created skipped w
  = (Return (created1, skipped1), w1) ->
  resize_one img orig_width orig_height output_dir base_name extension
             dimension quality size w1 = (Raise e, w2) ->
  resize_loop img orig_width orig_height output_dir base_name extension
              dimension quality (l1 ++ size :: l2) created skipped w
  = (Raise e, w2)
  /\ exists written later,
       files w1 = files w ++ written
       /\ (length created + length written = length created1)%nat
       /\ files w2 = files w1 ++ later.
Proof.
  intros H1 Hone. split.
  - rewrite resize_loop_app, H1. cbn [resize_loop]. unfold bind.
    rewrite Hone. reflexivity.
  - destruct (resize_loop_writes _ _ _ _ _ _ _ _ _ _ _ _ _ _ _ H1)
      as (cs & written & -> & Hf & HF).
    apply Forall2_length in HF.
    destruct (resize_one_files _ _ _ _ _ _ _ _ _ _ _ _ Hone)
      as [[Hf2 _] | (bytes & _ & Hf2 & _)].
    + exists written, []. rewrite Hf2, app_nil_r, length_app. auto with lia.
    + eexists written, _. rewrite length_app. split; [exact Hf |].
      split; [lia | exact Hf2].
Qed.

Lemma resize_loop_stops_at_first_error_witness :
  Demo.run (Demo.rgb 200 200) [100; 0; 50] "width"
  = (Raise (ValueError "height and width must be > 0"),
     {| stdout := []; stderr := []; dirs := ["out"];
        files := [("out/photo_100.jpg", 10000)]; warnings := [] |}).
Proof.
  set (PIL := Demo.imaging (Demo.rgb 200 200)).
  set (img := {| Demo.im_mode := "RGB"; Demo.im_size := (200, 200) |}).
  set (w0 := {| stdout := []; stderr := []; dirs := ["out"]; files := [];
                warnings := [] |}).
  assert (H1 : exists created1 w1,
             @resize_loop PIL img 200 200 "out" "photo" ".jpg" "width" 90
                          [100] [] [] w0 = (Return (created1, []), w1)
             /\ w1 = {| stdout := []; stderr := []; dirs := ["out"];
                        files := [("out/photo_100.jpg", 10000)];
                        warnings := [] |}).
  { eexists _, _. split; vm_compute; reflexivity. }
  destruct H1 as (created1 & w1 & H1 & Hw1).
  assert (Hone : @resize_one PIL img 200 200 "out" "photo" ".jpg" "width" 90 0 w1
                 = (Raise (ValueError "height and width must be > 0"), w1))
    by (rewrite Hw1; vm_compute; reflexivity).
  destruct (resize_loop_stops_at_first_error (PIL := PIL) img 200 200 "out"
              "photo" ".jpg" "width" 90 [100] 0 [50] [] [] w0 _ _ _ _ _ H1 Hone)
    as [Hrun _].
  rewrite Hw1 in Hrun. exact Hrun.
Defined.

(** ** The whole call and its files *)

(** The directory and the files of a call that returns. *)
Lemma resize_image_writes `{PIL : Imaging}
    input_path output_dir sizes dimension quality w created skipped w' :
  resize_image input_path output_dir sizes dimension quality w
  = (Return (created, skipped), w') ->
  dirs w' = dirs w ++ [output_dir]
  /\ exists written,
       files w' = files w ++ written
       /\ Forall2 (fun c pn => fst pn = path c
                               /\ PyNum.truediv (snd pn) 1024 = inr (size_kb c))
                  created written.
Proof.
  unfold resize_image.
  destruct (Image_open input_path) as [e | img]; [discriminate |].
  destruct (img_size img) as [ow oh].
  unfold bind at 1.
  destruct (path_mkdir output_dir) as [e |]; [discriminate |].
  unfold made_dir at 1. intros H.
  pose proof H as Hq. apply resize_loop_quiet in Hq as (_ & _ & Hd & _).
  apply resize_loop_writes in H as (cs & written & -> & Hf & HF).
  split; [exact Hd |]. exists written. auto.
Qed.

(** X3: in a call of [resize_image] that returns, the output directory has
    been made once, and the files written are those of the created entries,
    one each and in the same order, at the path the entry records; the
    [size_kb] of an entry is the byte length of its file divided by 1024.
    Skipped sizes write nothing. *)
Theorem resize_image_files_written `{PIL : Imaging}
    input_path output_dir sizes dimension quality w created skipped w' :
  resize_image input_path output_dir sizes dimension quality w
  = (Return (created, skipped), w') ->
  dirs w' = dirs w ++ [output_dir]
  /\ exists written,
       files w' = files w ++ written
       /\ Forall2 (fun c pn => fst pn = path c
                               /\ PyNum.truediv (snd pn) 1024 = inr (size_kb c))
                  created written.
Proof. apply resize_image_writes. Qed.

Lemma resize_image_files_written_witness :
  exists created skipped w',
    Demo.run (Demo.rgb 1920 1080) [3840; 960] "width"
    = (Return (created, skipped), w')
    /\ dirs w' = ["out"]
    /\ map fst (files w') = map path created.
Proof.
  eexists _, _, _.
  match goal with |- ?A /\ _ => assert (Hrun : A) by (vm_compute; reflexivity) end.
  split; [exact Hrun |].
  destruct (resize_image_files_written (PIL := Demo.imaging (Demo.rgb 1920 1080))
              Demo.photo "out" [3840; 960] "width" 90 empty_world _ _ _ Hrun)
    as (Hd & written & Hf & HF).
  split; [exact Hd |]. reflexivity.
Defined.

(** X4: whatever the outcome of [resize_image] (return, exception or exit),
    the files that were there are still there, and every file added is in
    the output directory under the name built from the source name and one
    of the requested sizes, a size that is not above the original
    dimension. *)
Theorem resize_image_only_adds_named_files `{PIL : Imaging}
    input_path output_dir sizes dimension quality w o w' :
  resize_image input_path output_dir sizes dimension quality w = (o, w') ->
  exists written,
    files w' = files w ++ written
    /\ Forall (fun pn =>
                 exists size img,
                   In size sizes
                   /\ Image_open input_path = inr img
                   /\ size <= axis_limit dimension (fst (img_size img))
                                         (snd (img_size img))
                   /\ fst pn = path_join output_dir
                                 (stem input_path +:+ "_" +:+ pretty size
                                    +:+ suffix input_path))
              written.
Proof.
  unfold resize_image.
  destruct (Image_open input_path) as [e | img] eqn:Hopen.
  - unfold bind, print_stderr, sys_exit. intros [= <- <-].
    exists []. simpl. rewrite app_nil_r. auto.
  - destruct (img_size img) as [ow oh] eqn:Hsize. unfold bind at 1.
    destruct (path_mkdir output_dir) as [e |].
    + intros [= <- <-]. exists []. rewrite app_nil_r. auto.
    + unfold made_dir at 1. intros H.
      apply resize_loop_files in H as (written & Hf & HF).
      exists written. split; [exact Hf |].
      eapply Forall_impl; [exact HF |]. simpl.
      intros pn (size & Hin & Hle & Hp). exists size, img.
      rewrite Hsize. simpl. auto.
Qed.

Lemma resize_image_only_adds_named_files_witness :
  exists o w',
    Demo.run (Demo.rgb 200 200) [100; 0; 50] "width" = (o, w')
    /\ map fst (files w') = ["out/photo_100.jpg"].
Proof.
  eexists _, _.
  match goal with |- ?A /\ _ => assert (Hrun : A) by (vm_compute; reflexivity) end.
  split; [exact Hrun |].
  destruct (resize_image_only_adds_named_files
              (PIL := Demo.imaging (Demo.rgb 200 200))
              Demo.photo "out" [100; 0; 50] "width" 90 empty_world _ _ Hrun)
    as (written & Hf & _).
  reflexivity.
Defined.

(** X5: when the image decodes, the directory can be made and every
    requested size is above the original dimension on the chosen axis (in
    particular when no size is requested), [resize_image] returns: no entry
    is created, every size is skipped in input order, and no file is
    written. *)
Theorem resize_image_all_upscales `{PIL : Imaging}
    input_path output_dir sizes dimension quality w img :
  Image_open input_path = inr img ->
  path_mkdir output_dir = None ->
  Forall (fun size => size > axis_limit dimension (fst (img_size img))
                                       (snd (img_size img))) sizes ->
  resize_image input_path output_dir sizes dimension quality w
  = (Return ([], map (fun size =>
                        (size, skip_reason dimension (fst (img_size img))
                                           (snd (img_size img)))) sizes),
     {| stdout := stdout w;
        stderr := stderr w ++ open_warnings input_path (warnings w);
        dirs := dirs w ++ [output_dir]; files := files w;
        warnings := warnings w ++ open_warnings input_path (warnings w) |}).
Proof.
  intros Hopen Hmk HF. rewrite resize_image_steps, Hopen, Hmk. cbv zeta.
  rewrite resize_loop_all_skipped by exact HF. reflexivity.
Qed.

Lemma resize_image_all_upscales_witness :
  Demo.run (Demo.rgb 1920 1080) [3840; 2000] "width"
  = (Return ([], [(3840, "original is only 1920px wide");
                  (2000, "original is only 1920px wide")]),
     {| stdout := []; stderr := []; dirs := ["out"]; files := [];
        warnings := [] |}).
Proof.
  apply (resize_image_all_upscales (PIL := Demo.imaging (Demo.rgb 1920 1080))
           Demo.photo "out" [3840; 2000] "width" 90 empty_world
           {| Demo.im_mode := "RGB"; Demo.im_size := (1920, 1080) |}
           eq_refl eq_refl).
  repeat constructor.
Defined.

(** ** The command *)

Lemma with_stdout_app w l1 l2 :
  with_stdout (with_stdout w l1) l2 = with_stdout w (l1 ++ l2).
Proof. unfold with_stdout. simpl. rewrite <- app_assoc. reflexivity. Qed.

Lemma with_stdout_nil w : with_stdout w [] = w.
Proof. destruct w. unfold with_stdout. simpl. rewrite app_nil_r. reflexivity. Qed.

Lemma print_spec l w : print l w = (Return tt, with_stdout w [l]).
Proof. reflexivity. Qed.

Lemma bind_print {B} l (k : unit -> M B) w :
  bind (print l) k w = k tt (with_stdout w [l]).
Proof. reflexivity. Qed.

Lemma print_all_spec lines : forall w,
  print_all lines w = (Return tt, with_stdout w lines).
Proof.
  induction lines as [| l ls IH]; intros w.
  - simpl. unfold ret. rewrite with_stdout_nil. reflexivity.
  - cbn [print_all]. rewrite bind_print, IH, with_stdout_app. reflexivity.
Qed.

Lemma bind_print_all {B} lines (k : unit -> M B) w :
  bind (print_all lines) k w = k tt (with_stdout w lines).
Proof. unfold bind. rewrite print_all_spec. reflexivity. Qed.

Lemma bind_lib_warns {B} lines (k : unit -> M B) w :
  bind (lib_warns lines) k w = k tt (warned w lines).
Proof. reflexivity. Qed.

(** How lines 142-154 end: with exit status 2 and one line on the standard
    error stream when the request names no axis or both, else with the
    outcome of [parse_sizes] on the text given, the world untouched. *)
Lemma dimension_and_sizes_cases `{PIL : Imaging} args w :
  match requested_sizes args with
  | None =>
      exists line, dimension_and_sizes args w = (SysExit 2, with_stderr w [line])
  | Some (dimension, size_str) =>
      dimension_and_sizes args w
      = match parse_sizes size_str with
        | inl e => (Raise e, w)
        | inr sizes => (Return (dimension, sizes), w)
        end
  end.
Proof.
  unfold requested_sizes, dimension_and_sizes.
  destruct (truthy (arg_width args) && truthy (arg_height args)).
  { eexists. reflexivity. }
  destruct (truthy (arg_width args)).
  { unfold bind, lift. destruct (parse_sizes _); reflexivity. }
  destruct (truthy (arg_height args)).
  { unfold bind, lift. destruct (parse_sizes _); reflexivity. }
  eexists. reflexivity.
Qed.

(** What [cmd_resize] does once the file exists, is a JPEG by its name,
    the sizes parsed and the quality is in range: [Image.open] writes its
    warnings, and the rest starts from there. *)
Lemma cmd_resize_checked `{PIL : Imaging} args dimension size_str sizes w :
  path_exists (path_of (arg_input args)) = true ->
  validate_jpeg (path_of (arg_input args)) = true ->
  requested_sizes args = Some (dimension, size_str) ->
  parse_sizes size_str = inr sizes ->
  1 <= arg_quality args <= 100 ->
  cmd_resize args w
  = match Image_open (path_of (arg_input args)) with
    | inl _ =>
        (SysExit 4,
         with_stderr (warned w (open_warnings (path_of (arg_input args))))
           ["Error: Cannot read image: "
              +:+ path_str (path_of (arg_input args))])
    | inr img =>
        match resize_image (path_of (arg_input args)) (arg_output args) sizes
                dimension (arg_quality args)
                (with_stdout
                   (warned w (open_warnings (path_of (arg_input args))))
                   (header_lines (path_of (arg_input args))
                      (arg_output args)
                      (fst (img_size img)) (snd (img_size img))))
        with
        | (Return (created, skipped), w1) =>
            (match created with [] => SysExit 0 | _ => Return tt end,
             with_stdout w1 (report_lines (path_of (arg_input args))
                                          created skipped))
        | (Raise e, w1) => (Raise e, w1)
        | (SysExit code, w1) => (SysExit code, w1)
        end
    end.
Proof.
  intros Hex Hjpeg Hreq Hparse Hq.
  unfold cmd_resize. rewrite Hex, Hjpeg. cbn [negb].
  unfold bind at 1.
  pose proof (dimension_and_sizes_cases args w) as Hds.
  rewrite Hreq, Hparse in Hds. rewrite Hds.
  replace (1 <=? arg_quality args) with true by (symmetry; apply Z.leb_le; lia).
  replace (arg_quality args <=? 100) with true by (symmetry; apply Z.leb_le; lia).
  cbn [andb negb]. rewrite bind_lib_warns.
  destruct (Image_open (path_of (arg_input args))) as [e | img]; [reflexivity |].
  destruct (img_size img) as [ow oh]. cbn [fst snd].
  rewrite !bind_print, !with_stdout_app. cbn [app].
  fold (header_lines (path_of (arg_input args)) (arg_output args) ow oh).
  unfold bind at 1.
  destruct (resize_image _ _ _ _ _ _) as [[[created skipped] | e | code] w1];
    try reflexivity.
  rewrite bind_print_all. unfold report_lines.
  destruct skipped as [| sk skipped].
  - unfold bind at 1. unfold ret at 1. rewrite bind_print.
    destruct created as [| c created].
    + rewrite bind_print. unfold sys_exit. rewrite !with_stdout_app.
      reflexivity.
    + rewrite print_spec, !with_stdout_app. rewrite <- ?app_assoc. reflexivity.
  - unfold bind at 1. rewrite bind_print, print_all_spec, bind_print.
    destruct created as [| c created].
    + rewrite bind_print. unfold sys_exit. rewrite !with_stdout_app.
      rewrite <- ?app_assoc. reflexivity.
    + rewrite print_spec, !with_stdout_app. rewrite <- ?app_assoc. reflexivity.
Qed.

(** Once the image is decoded, [resize_image] prints nothing itself and does
    not exit the process. *)
Lemma resize_image_opened_quiet `{PIL : Imaging}
    input_path output_dir sizes dimension quality w img o w' :
  Image_open input_path = inr img ->
  resize_image input_path output_dir sizes dimension quality w = (o, w') ->
  stdout w' = stdout w /\ only_libraries_wrote w w'
  /\ (forall code, o <> SysExit code).
Proof.
  intros Hopen. rewrite resize_image_steps, Hopen. cbv zeta.
  set (w0 := warned w (open_warnings input_path)).
  assert (L0 : only_libraries_wrote w w0)
    by apply only_libraries_wrote_warned.
  destruct (path_mkdir output_dir) as [e |].
  - intros [= <- <-]. repeat split; try discriminate. exact L0.
  - intros H.
    apply resize_loop_quiet in H as (Ho & He & _ & Hx).
    split; [exact Ho |]. split; [| exact Hx].
    eapply only_libraries_wrote_trans; [exact L0 |].
    destruct He as (l & He & Hw). exists l. auto.
Qed.



(** X7: whenever [cmd_resize] exits the process, the exit status is between
    0 and 4 and no file has been written; unless the status is 0, no
    directory has been made and nothing has been printed on the standard
    output either. *)
Theorem cmd_resize_exit_writes_nothing `{PIL : Imaging} args w code w' :
  cmd_resize args w = (SysExit code, w') ->
  0 <= code <= 4
  /\ files w' = files w
  /\ (code <> 0 -> dirs w' = dirs w /\ stdout w' = stdout w).
Proof.
  destruct (path_exists (path_of (arg_input args))) eqn:Hex.
  2:{ unfold cmd_resize. rewrite Hex. cbn [negb].
      intros [= <- <-]. repeat split; lia. }
  destruct (validate_jpeg (path_of (arg_input args))) eqn:Hjpeg.
  2:{ unfold cmd_resize. rewrite Hex, Hjpeg. cbn [negb].
      intros [= <- <-]. repeat split; lia. }
  pose proof (dimension_and_sizes_cases args w) as Hds.
  destruct (requested_sizes args) as [[dimension size_str] |] eqn:Hreq.
  2:{ destruct Hds as [line Hds].
      unfold cmd_resize. rewrite Hex, Hjpeg. cbn [negb].
      unfold bind at 1. rewrite Hds.
      intros [= <- <-]. repeat split; lia. }
  destruct (parse_sizes size_str) as [e | sizes] eqn:Hparse.
  { unfold cmd_resize. rewrite Hex, Hjpeg. cbn [negb].
    unfold bind at 1. rewrite Hds. discriminate. }
  destruct (Z.leb_spec 1 (arg_quality args)) as [Hq1 | Hq1];
    [destruct (Z.leb_spec (arg_quality args) 100) as [Hq2 | Hq2] |].
  - rewrite (cmd_resize_checked args dimension size_str sizes w Hex Hjpeg Hreq
               Hparse (conj Hq1 Hq2)).
    destruct (Image_open (path_of (arg_input args))) as [e | img] eqn:Hopen.
    { intros [= <- <-]. repeat split; lia. }
    destruct (resize_image _ _ _ _ _ _) as [[[created skipped] | e | code1] w1]
      eqn:Hrun.
    + destruct created as [| c created]; [| discriminate].
      intros [= <- <-].
      apply resize_image_writes in Hrun as (_ & written & Hf & HF).
      inversion HF; subst. split; [lia |]. split; [| lia].
      cbn [files with_stdout] in *. rewrite Hf, app_nil_r. reflexivity.
    + discriminate.
    + apply (resize_image_opened_quiet _ _ _ _ _ _ _ _ _ Hopen) in Hrun
        as (_ & _ & Hx).
      exfalso. exact (Hx code1 eq_refl).
  - unfold cmd_resize. rewrite Hex, Hjpeg. cbn [negb].
    unfold bind at 1. rewrite Hds.
    replace (arg_quality args <=? 100) with false
      by (symmetry; apply Z.leb_gt; lia).
    rewrite andb_false_r. cbn [negb].
    intros [= <- <-]. repeat split; lia.
  - unfold cmd_resize. rewrite Hex, Hjpeg. cbn [negb].
    unfold bind at 1. rewrite Hds.
    replace (1 <=? arg_quality args) with false
      by (symmetry; apply Z.leb_gt; lia).
    cbn [andb negb].
    intros [= <- <-]. repeat split; lia.
Qed.

Lemma cmd_resize_exit_writes_nothing_witness :
  exists w',
    @cmd_resize (Demo.imaging (Demo.rgb 1920 1080))
      {| arg_input := "photo.jpg"; arg_output := "out";
         arg_width := Some "960"; arg_height := None; arg_quality := 101 |}
      empty_world = (SysExit 2, w')
    /\ files w' = [] /\ dirs w' = [] /\ stdout w' = [].
Proof.
  eexists.
  match goal with |- ?A /\ _ => assert (Hrun : A) by (vm_compute; reflexivity) end.
  split; [exact Hrun |].
  destruct (cmd_resize_exit_writes_nothing
              (PIL := Demo.imaging (Demo.rgb 1920 1080)) _ _ _ _ Hrun)
    as (_ & Hf & Hd).
  split; [exact Hf |]. apply Hd. discriminate.
Defined.

(** X8: when [cmd_resize] returns, every check has passed (the file
    exists, its suffix is one of the four accepted, one axis was requested,
    the sizes parsed and are all positive, the quality is between 1 and 100,
    the image decoded), at least one requested size is not above the original
    dimension, and at least one file has been written. *)
Theorem cmd_resize_return_means_success `{PIL : Imaging} args w w' :
  cmd_resize args w = (Return tt, w') ->
  path_exists (path_of (arg_input args)) = true
  /\ suffix (path_of (arg_input args)) ∈ [".jpg"; ".jpeg"; ".JPG"; ".JPEG"]
  /\ 1 <= arg_quality args <= 100
  /\ exists dimension size_str sizes img,
       requested_sizes args = Some (dimension, size_str)
       /\ parse_sizes size_str = inr sizes
       /\ Forall (fun size => 0 < size) sizes
       /\ Image_open (path_of (arg_input args)) = inr img
       /\ (exists size,
             In size sizes
             /\ size <= axis_limit dimension (fst (img_size img))
                                   (snd (img_size img)))
       /\ exists p n later, files w' = files w ++ (p, n) :: later.
Proof.
  destruct (path_exists (path_of (arg_input args))) eqn:Hex.
  2:{ unfold cmd_resize. rewrite Hex. discriminate. }
  destruct (validate_jpeg (path_of (arg_input args))) eqn:Hjpeg.
  2:{ unfold cmd_resize. rewrite Hex, Hjpeg. discriminate. }
  pose proof (dimension_and_sizes_cases args w) as Hds.
  destruct (requested_sizes args) as [[dimension size_str] |] eqn:Hreq.
  2:{ destruct Hds as [line Hds].
      unfold cmd_resize. rewrite Hex, Hjpeg. cbn [negb].
      unfold bind at 1. rewrite Hds. discriminate. }
  destruct (parse_sizes size_str) as [e | sizes] eqn:Hparse.
  { unfold cmd_resize. rewrite Hex, Hjpeg. cbn [negb].
    unfold bind at 1. rewrite Hds. discriminate. }
  assert (Hq : cmd_resize args w = (Return tt, w') -> 1 <= arg_quality args <= 100).
  { destruct (Z.leb_spec 1 (arg_quality args)) as [Hq1 | Hq1];
      [destruct (Z.leb_spec (arg_quality args) 100) as [Hq2 | Hq2] |];
      [auto | |].
    - unfold cmd_resize. rewrite Hex, Hjpeg. cbn [negb].
      unfold bind at 1. rewrite Hds.
      replace (arg_quality args <=? 100) with false
        by (symmetry; apply Z.leb_gt; lia).
      rewrite andb_false_r. discriminate.
    - unfold cmd_resize. rewrite Hex, Hjpeg. cbn [negb].
      unfold bind at 1. rewrite Hds.
      replace (1 <=? arg_quality args) with false
        by (symmetry; apply Z.leb_gt; lia).
      discriminate. }
  intros Hret. specialize (Hq Hret).
  rewrite (cmd_resize_checked args dimension size_str sizes w Hex Hjpeg Hreq
             Hparse Hq) in Hret.
  destruct (Image_open (path_of (arg_input args))) as [e | img] eqn:Hopen;
    [discriminate |].
  destruct (resize_image _ _ _ _ _ _) as [[[created skipped] | e | code1] w1]
    eqn:Hrun; try discriminate.
  destruct created as [| c created]; [discriminate |].
  injection Hret as <-.
  split; [reflexivity |]. split.
  { unfold validate_jpeg, valid_extensions in Hjpeg.
    destruct (decide (suffix (path_of (arg_input args))
                        ∉ [".jpg"; ".jpeg"; ".JPG"; ".JPEG"])) as [Hn | Hin];
      [discriminate |].
    destruct (decide (suffix (path_of (arg_input args))
                        ∈ [".jpg"; ".jpeg"; ".JPG"; ".JPEG"])); tauto. }
  split; [exact Hq |].
  exists dimension, size_str, sizes, img.
  split; [reflexivity |]. split; [exact Hparse |].
  split; [apply (parse_sizes_positive _ _ Hparse) |].
  split; [reflexivity |].
  pose proof Hrun as Hret2.
  apply resize_image_returns in Hret2 as (img' & Hopen' & HF & _).
  rewrite Hopen in Hopen'. injection Hopen' as <-.
  apply resize_image_writes in Hrun as (_ & written & Hf & HW).
  split.
  - inversion HF as [| size c' l cs Hm HF' Hl Hc]; subst.
    exists size.
    assert (Hin : In size (List.filter
                             (feasible (axis_limit dimension
                                          (fst (img_size img)) (snd (img_size img))))
                             sizes))
      by (rewrite <- Hl; left; reflexivity).
    apply filter_In in Hin as [Hin Hfe]. split; [exact Hin |].
    unfold feasible in Hfe. apply negb_true_iff in Hfe.
    rewrite Z.gtb_ltb in Hfe. apply Z.ltb_ge in Hfe. exact Hfe.
  - inversion HW as [| c' pn cs later Hhd Htl]; subst.
    destruct pn as [fpath fbytes].
    exists fpath, fbytes, later. cbn [files with_stdout] in *. exact Hf.
Qed.

Lemma cmd_resize_return_means_success_witness :
  exists w',
    @cmd_resize (Demo.imaging (Demo.rgb 1920 1080))
      {| arg_input := "photo.jpg"; arg_output := "out";
         arg_width := Some "3840,960"; arg_height := None; arg_quality := 90 |}
      empty_world = (Return tt, w')
    /\ exists p n later, files w' = (p, n) :: later.
Proof.
  eexists.
  match goal with |- ?A /\ _ => assert (Hrun : A) by (vm_compute; reflexivity) end.
  split; [exact Hrun |].
  destruct (cmd_resize_return_means_success
              (PIL := Demo.imaging (Demo.rgb 1920 1080)) _ _ _ Hrun)
    as (_ & _ & _ & dimension & size_str & sizes & img
        & _ & _ & _ & _ & _ & p & n & later & Hf).
  exists p, n, later. exact Hf.
Defined.

(** ** [parse_sizes] *)

Lemma mapM_result_inr {A B} (f : A -> result B) l : forall bs,
  mapM_result f l = inr bs <-> Forall2 (fun a b => f a = inr b) l bs.
Proof.
  induction l as [| a l IH]; intros bs; cbn [mapM_result].
  - split.
    + intros [= <-]. constructor.
    + intros H. inversion H. reflexivity.
  - destruct (f a) as [e | b] eqn:Hfa; cbn [rbind].
    + split; [discriminate |]. intros H. inversion H; subst. congruence.
    + destruct (mapM_result f l) as [e | bs'] eqn:Hrest; cbn [rbind].
      * split; [discriminate |]. intros H. inversion H; subst.
        match goal with H : Forall2 _ l _ |- _ => apply IH in H end.
        discriminate.
      * split.
        -- intros [= <-]. constructor; [exact Hfa |]. apply IH. reflexivity.
        -- intros H. inversion H; subst.
           match goal with H : Forall2 _ l _ |- _ => apply IH in H end.
           congruence.
Qed.

Lemma mapM_result_inl {A B} (f : A -> result B) l : forall e,
  mapM_result f l = inl e
  <-> exists l1 a l2 bs,
        l = l1 ++ a :: l2
        /\ Forall2 (fun a b => f a = inr b) l1 bs
        /\ f a = inl e.
Proof.
  induction l as [| a l IH]; intros e; cbn [mapM_result].
  - split; [discriminate |].
    intros (l1 & a & l2 & bs & Hl & _). destruct l1; discriminate.
  - destruct (f a) as [e0 | b] eqn:Hfa; cbn [rbind].
    + split.
      * intros [= <-]. exists [], a, l, []. repeat split; [constructor | exact Hfa].
      * intros (l1 & a' & l2 & bs & Hl & HF & He).
        destruct l1 as [| x l1]; cbn in Hl; injection Hl as -> ->.
        -- congruence.
        -- inversion HF; subst. congruence.
    + destruct (mapM_result f l) as [e1 | bs'] eqn:Hrest; cbn [rbind].
      * split.
        -- intros [= <-].
           destruct (proj1 (IH e1) eq_refl) as (l1 & a' & l2 & bs & -> & HF & He).
           exists (a :: l1), a', l2, (b :: bs).
           repeat split; [constructor; assumption | exact He].
        -- intros (l1 & a' & l2 & bs & Hl & HF & He).
           destruct l1 as [| x l1]; cbn in Hl; injection Hl as -> ->.
           ++ congruence.
           ++ inversion HF; subst. f_equal.
              assert (H : inl e1 = (inl e : result (list B))).
              { apply IH. eauto 10. }
              congruence.
      * split; [discriminate |].
        intros (l1 & a' & l2 & bs & Hl & HF & He).
        destruct l1 as [| x l1]; cbn in Hl; injection Hl as -> ->.
        -- congruence.
        -- inversion HF; subst.
           assert (H : inr bs' = (inl e : result (list B))).
           { apply IH. eauto 10. }
           discriminate.
Qed.

Lemma split_on_length c s : length (split_on c s) = S (count_char c s).
Proof.
  induction s as [| a s IH]; cbn [split_on count_char]; [reflexivity |].
  destruct (decide (a = c)); cbn [length].
  - rewrite IH. reflexivity.
  - destruct (split_on c s); cbn [length] in *; lia.
Qed.

Lemma parse_sizes_fields `{PIL : Imaging} size_str sizes :
  parse_sizes size_str = inr sizes ->
  Forall2 (fun field size => int_of_str (str_strip field) = inr size)
          (split_on ","%char size_str) sizes.
Proof.
  unfold parse_sizes.
  destruct (mapM_result _ _) as [e | l] eqn:Hmap; cbn [rbind].
  - destruct e; discriminate.
  - destruct (any_nonpositive l); [discriminate |].
    intros [= <-]. apply mapM_result_inr in Hmap. exact Hmap.
Qed.

(** X9: [parse_sizes] returns a list exactly when every comma-separated
    field, stripped, converts to an integer and every one of these integers
    is positive; the list holds them in the order of the fields. *)
Theorem parse_sizes_returns_iff `{PIL : Imaging} size_str sizes :
  parse_sizes size_str = inr sizes
  <-> Forall2 (fun field size => int_of_str (str_strip field) = inr size)
              (split_on ","%char size_str) sizes
      /\ Forall (fun size => 0 < size) sizes.
Proof.
  split.
  - intros H. split; [exact (parse_sizes_fields _ _ H) |].
    exact (parse_sizes_positive _ _ H).
  - intros [HF Hpos]. apply mapM_result_inr in HF.
    unfold parse_sizes. rewrite HF. cbn [rbind].
    destruct (any_nonpositive sizes) eqn:Hany; [| reflexivity].
    apply any_nonpositive_Exists, List.Exists_exists in Hany as (s & Hin & Hs).
    rewrite List.Forall_forall in Hpos. specialize (Hpos s Hin). lia.
Qed.

(** X10: the first field that does not convert decides the error of
    [parse_sizes]: its exception comes out, wrapped into an
    [ArgumentTypeError] when it is a [ValueError], whatever the fields
    before it converted to (also a size that is not positive) and whatever
    follows it. *)
Theorem parse_sizes_first_bad_field `{PIL : Imaging}
    size_str before field after sizes e :
  split_on ","%char size_str = before ++ field :: after ->
  Forall2 (fun field size => int_of_str (str_strip field) = inr size)
          before sizes ->
  int_of_str (str_strip field) = inl e ->
  parse_sizes size_str = inl (wrapped e).
Proof.
  intros Hsplit HF He.
  assert (Hmap : mapM_result (fun s => int_of_str (str_strip s))
                   (split_on ","%char size_str) = inl e).
  { apply mapM_result_inl. eauto 10. }
  unfold parse_sizes. rewrite Hmap. cbn [rbind].
  destruct e; reflexivity.
Qed.

Lemma parse_sizes_first_bad_field_witness :
  @parse_sizes (Demo.imaging (Demo.rgb 1920 1080)) "300, 0,x,7"
  = inl (ArgumentTypeError
           "Invalid size format: invalid literal for int() with base 10: 'x'").
Proof.
  set (PIL := Demo.imaging (Demo.rgb 1920 1080)).
  assert (H1 : @int_of_str PIL (@str_strip PIL "300") = inr 300)
    by (vm_compute; reflexivity).
  assert (H2 : @int_of_str PIL (@str_strip PIL " 0") = inr 0)
    by (vm_compute; reflexivity).
  assert (H3 : @int_of_str PIL (@str_strip PIL "x")
               = inl (ValueError "invalid literal for int() with base 10: 'x'"))
    by (vm_compute; reflexivity).
  assert (Hs : split_on ","%char "300, 0,x,7" = ["300"; " 0"] ++ "x" :: ["7"])
    by (vm_compute; reflexivity).
  assert (HF : Forall2 (fun field size =>
                          @int_of_str PIL (@str_strip PIL field) = inr size)
                       ["300"; " 0"] [300; 0])
    by (repeat constructor; assumption).
  exact (parse_sizes_first_bad_field (PIL := PIL) "300, 0,x,7" ["300"; " 0"] "x"
           ["7"] [300; 0] _ Hs HF H3).
Defined.

(** X11: every way [parse_sizes] fails: either some field does not convert
    and its exception comes out (wrapped when it is a [ValueError]), or all
    the fields convert, one of the integers is not positive and the
    exception is the [ArgumentTypeError] with the text about positive
    integers.  A [ValueError] never leaves [parse_sizes]. *)
Theorem parse_sizes_errors `{PIL : Imaging} size_str e :
  parse_sizes size_str = inl e ->
  ((exists field e0,
       In field (split_on ","%char size_str)
       /\ int_of_str (str_strip field) = inl e0
       /\ e = wrapped e0)
   \/ (exists sizes,
         Forall2 (fun field size => int_of_str (str_strip field) = inr size)
                 (split_on ","%char size_str) sizes
         /\ Exists (fun size => size <= 0) sizes
         /\ e = ArgumentTypeError
                  "Invalid size format: Sizes must be positive integers"))
  /\ forall msg, e <> ValueError msg.
Proof.
  unfold parse_sizes.
  destruct (mapM_result _ _) as [e0 | l] eqn:Hmap; cbn [rbind].
  - intros H.
    assert (He : e = wrapped e0) by (destruct e0; injection H as <-; reflexivity).
    split.
    + left. apply mapM_result_inl in Hmap as (l1 & a & l2 & bs & Hl & _ & Ha).
      exists a, e0. repeat split; [| exact Ha | exact He].
      rewrite Hl. apply in_or_app. right. left. reflexivity.
    + intros msg. rewrite He. destruct e0; discriminate.
  - destruct (any_nonpositive l) eqn:Hany; [| discriminate].
    intros [= <-]. split; [| discriminate].
    right. exists l. repeat split.
    + apply mapM_result_inr. exact Hmap.
    + apply any_nonpositive_Exists. exact Hany.
Qed.

Lemma parse_sizes_errors_witness :
  exists sizes,
    Forall2 (fun field size =>
               @int_of_str (Demo.imaging (Demo.rgb 1920 1080))
                 (@str_strip (Demo.imaging (Demo.rgb 1920 1080)) field)
               = inr size)
            (split_on ","%char "300,-5") sizes
    /\ Exists (fun size => size <= 0) sizes.
Proof.
  set (PIL := Demo.imaging (Demo.rgb 1920 1080)).
  assert (Hrun : @parse_sizes PIL "300,-5"
                 = inl (ArgumentTypeError
                          "Invalid size format: Sizes must be positive integers"))
    by (vm_compute; reflexivity).
  destruct (parse_sizes_errors (PIL := PIL) "300,-5" _ Hrun)
    as [[(field & e0 & Hin & Hbad & He) | (sizes & HF & HE & _)] _].
  - exfalso. cbn in Hin.
    destruct Hin as [<- | [<- | []]]; vm_compute in Hbad; discriminate.
  - exists sizes. split; assumption.
Defined.

(** X12: the list [parse_sizes] returns has one size for each field of the
    text, that is one more than the text has commas; it is never empty. *)
Theorem parse_sizes_length `{PIL : Imaging} size_str sizes :
  parse_sizes size_str = inr sizes ->
  length sizes = S (count_char ","%char size_str).
Proof.
  intros H. apply parse_sizes_fields in H as HF.
  apply Forall2_length in HF. rewrite <- HF. apply split_on_length.
Qed.

Lemma parse_sizes_length_witness :
  exists sizes,
    @parse_sizes (Demo.imaging (Demo.rgb 1920 1080)) "300, 600 ,900" = inr sizes
    /\ length sizes = 3%nat.
Proof.
  set (PIL := Demo.imaging (Demo.rgb 1920 1080)).
  eexists.
  match goal with |- ?A /\ _ => assert (Hrun : A) by (vm_compute; reflexivity) end.
  split; [exact Hrun |].
  exact (parse_sizes_length (PIL := PIL) _ _ Hrun).
Defined.

(** ** File sizes in KB *)

(** A byte count below [2^53] divided by 1024: the quotient is a float, and no
    rounding takes place. *)
Lemma truediv_1024 n :
  0 < n < two53 ->
  exists m e,
    PyNum.truediv n 1024 = inr (S754_finite false m e)
    /\ -62 <= e <= -10
    /\ Z.pos m * 1024 = n * 2 ^ (- e).
Proof.
  intros [Hn Hlt].
  pose proof (Zdigits2_pos n Hn) as Hd0.
  pose proof (Zdigits2_lt_pow n 53 Hn ltac:(lia) Hlt) as Hd1.
  pose proof (Zdigits2_bounds n Hn) as [Hlo Hhi].
  set (d := Zdigits2 n) in *.
  set (q := n * 2 ^ (54 - d)).
  assert (H2 : 0 < 2 ^ (54 - d)) by (apply Z.pow_pos_nonneg; lia).
  assert (Hq53 : 2 ^ 53 <= q).
  { assert (E : 2 ^ 53 = 2 ^ (d - 1) * 2 ^ (54 - d))
      by (rewrite <- Z.pow_add_r by lia; f_equal; lia).
    rewrite E. unfold q. nia. }
  assert (Hq54 : q < 2 ^ 54).
  { assert (E : 2 ^ 54 = 2 ^ d * 2 ^ (54 - d))
      by (rewrite <- Z.pow_add_r by lia; f_equal; lia).
    rewrite E. unfold q. nia. }
  assert (Hdq : Zdigits2 q = 54) by (apply Zdigits2_unique; lia).
  assert (Hq2 : q = 2 * (n * 2 ^ (53 - d))).
  { unfold q. replace (54 - d) with (1 + (53 - d)) by lia.
    rewrite Z.pow_add_r by lia. change (2 ^ 1) with 2. lia. }
  assert (H3 : 0 < 2 ^ (53 - d)) by (apply Z.pow_pos_nonneg; lia).
  assert (Hcore : SFdiv_core_binary 53 1024 n 0 1024 0
                  = (q, d - 64, loc_Exact)).
  { unfold SFdiv_core_binary. rewrite !Z.add_0_r. fold d.
    change (Zdigits2 1024) with 11.
    rewrite fexp_normal by lia.
    change (0 - 0) with 0.
    rewrite Z.min_l by lia.
    replace (0 - (d - 11 - 53)) with (64 - d) by lia.
    destruct (64 - d) as [| ps | ps] eqn:Es; try lia.
    rewrite Z.shiftl_mul_pow2 by lia.
    rewrite div_eucl_eq, new_location_ratio by lia.
    assert (HN : n * 2 ^ Z.pos ps = q * 1024).
    { unfold q. rewrite <- Es. replace (64 - d) with ((54 - d) + 10) by lia.
      rewrite Z.pow_add_r by lia. change (2 ^ 10) with 1024. lia. }
    rewrite HN. unfold loc_ratio. rewrite Z.div_mul, Z.mod_mul by lia.
    f_equal. f_equal. lia. }
  assert (Hround : binary_round_aux 53 1024 false q (d - 64) loc_Exact
                   = S754_finite false (Z.to_pos (n * 2 ^ (53 - d))) (d - 63)).
  { rewrite binary_round_aux_exact; rewrite ?Hdq; try lia.
    - change (2 ^ (54 - 53)) with 2. rewrite Hq2.
      rewrite (Z.mul_comm 2), Z.div_mul by lia. f_equal. lia.
    - change (2 ^ (54 - 53)) with 2. rewrite Hq2.
      rewrite (Z.mul_comm 2). apply Z.mod_mul. lia. }
  exists (Z.to_pos (n * 2 ^ (53 - d))), (d - 63).
  split; [| split; [lia |]].
  - unfold PyNum.truediv. change (1024 =? 0) with false. cbv iota.
    destruct n as [| pn | pn]; try lia.
    cbn [PyNum.exact_int SFdiv xorb]. unfold PyNum.prec, PyNum.emax.
    rewrite Hcore, Hround. reflexivity.
  - rewrite Z2Pos.id by nia.
    replace (- (d - 63)) with ((53 - d) + 10) by lia.
    rewrite Z.pow_add_r by lia. change (2 ^ 10) with 1024. lia.
Qed.

(** X13: for a file of at least one and fewer than [2^53] bytes,
    [get_file_size_kb] returns the byte count divided by 1024 exactly, with
    no rounding: the float [m * 2^e] with [e < 0] and
    [m * 1024 = n * 2^(-e)]; it changes nothing. *)
Theorem get_file_size_kb_exact filepath w n :
  latest filepath (files w) = Some n ->
  0 < n < two53 ->
  exists m e,
    get_file_size_kb filepath w = (Return (S754_finite false m e), w)
    /\ e < 0
    /\ Z.pos m * 1024 = n * 2 ^ (- e).
Proof.
  intros Hfile Hn.
  unfold get_file_size_kb, bind, getsize, lift. rewrite Hfile.
  destruct (truediv_1024 n Hn) as (m & e & Hdiv & He & Hv).
  exists m, e. rewrite Hdiv. split; [reflexivity |]. split; [lia | exact Hv].
Qed.

Lemma get_file_size_kb_exact_witness :
  exists m e,
    get_file_size_kb "out/photo_960.jpg"
      {| stdout := []; stderr := []; dirs := ["out"];
         files := [("out/photo_960.jpg", 518400)]; warnings := [] |}
    = (Return (S754_finite false m e),
       {| stdout := []; stderr := []; dirs := ["out"];
          files := [("out/photo_960.jpg", 518400)]; warnings := [] |})
    /\ e < 0
    /\ Z.pos m * 1024 = 518400 * 2 ^ (- e).
Proof.
  assert (Hfile : latest "out/photo_960.jpg" [("out/photo_960.jpg", 518400)]
                  = Some 518400) by (vm_compute; reflexivity).
  exact (get_file_size_kb_exact "out/photo_960.jpg"
           {| stdout := []; stderr := []; dirs := ["out"];
              files := [("out/photo_960.jpg", 518400)]; warnings := [] |}
           518400 Hfile ltac:(unfold two53; lia)).
Defined.

(** ** The resolved dimensions and the original *)

(** X14: the loop never enlarges: for an image of fewer than [2^51] pixels
    and a positive size that is not skipped, the resolved width and height
    are both between 0 and the original width and height. *)
Theorem resolved_dimensions_within_original
    dimension size orig_width orig_height new_width new_height :
  0 < orig_width -> 0 < orig_height ->
  orig_width * orig_height < 2 ^ 51 ->
  0 < size ->
  new_dimensions dimension size orig_width orig_height
  = inr (Dims new_width new_height) ->
  0 <= new_width <= orig_width /\ 0 <= new_height <= orig_height.
Proof.
  intros How Hoh Hpix Hs Hdims.
  pose proof (new_dimensions_Dims_inv _ _ _ _ _ _ Hdims) as (Hle & _ & _).
  destruct (new_dimensions_feasible dimension size orig_width orig_height
              How Hoh Hpix (conj Hs Hle)) as (d & Heq & [_ Hhi] & H0 & _).
  rewrite Heq in Hdims.
  assert (Hd : d <= axis_other dimension orig_width orig_height).
  { eapply Z.le_trans; [exact Hhi |].
    assert (Hl : 0 < axis_limit dimension orig_width orig_height) by lia.
    assert (Ho : 0 <= axis_other dimension orig_width orig_height)
      by (unfold axis_other; destruct (decide (dimension = "width")); lia).
    apply Z.div_le_upper_bound; [exact Hl |].
    apply Z.mul_le_mono_nonneg_r; [exact Ho | exact Hle]. }
  unfold axis_limit, axis_other in *.
  destruct (decide (dimension = "width")); injection Hdims as <- <-; lia.
Qed.

Lemma resolved_dimensions_within_original_witness :
  exists new_width new_height,
    new_dimensions "height" 1000 1920 1080 = inr (Dims new_width new_height)
    /\ 0 <= new_width <= 1920 /\ 0 <= new_height <= 1080.
Proof.
  eexists _, _.
  match goal with |- ?A /\ _ => assert (Hrun : A) by (vm_compute; reflexivity) end.
  split; [exact Hrun |].
  exact (resolved_dimensions_within_original "height" 1000 1920 1080 _ _
           ltac:(lia) ltac:(lia) ltac:(reflexivity) ltac:(lia) Hrun).
Defined.

(** ** Sizes that are not positive *)

(** Rounding does not look at the sign. *)
Lemma binary_round_aux_negb s m e l :
  binary_round_aux 53 1024 (negb s) m e l
  = SFopp (binary_round_aux 53 1024 s m e l).
Proof.
  unfold binary_round_aux.
  destruct (shr_fexp 53 1024 m e l) as [mrs' e'].
  destruct (shr_fexp 53 1024 _ e' loc_Exact) as [mrs'' e''].
  destruct (shr_m mrs''); [reflexivity | | reflexivity].
  destruct (e'' <=? 1024 - 53); reflexivity.
Qed.

Lemma SFdiv_opp_l x y : SFdiv 53 1024 (SFopp x) y = SFopp (SFdiv 53 1024 x y).
Proof.
  destruct x as [sx | sx | | sx mx ex], y as [sy | sy | | sy my ey];
    cbn [SFdiv SFopp]; rewrite <- ?Bool.negb_xorb_l; try reflexivity.
  destruct (SFdiv_core_binary 53 1024 (Z.pos mx) ex (Z.pos my) ey)
    as [[mz ez] lz].
  apply binary_round_aux_negb.
Qed.

Lemma SFmul_opp_l x y : SFmul 53 1024 (SFopp x) y = SFopp (SFmul 53 1024 x y).
Proof.
  destruct x as [sx | sx | | sx mx ex], y as [sy | sy | | sy my ey];
    cbn [SFmul SFopp]; rewrite <- ?Bool.negb_xorb_l; try reflexivity.
  apply binary_round_aux_negb.
Qed.

Lemma exact_int_opp a : a <> 0 -> PyNum.exact_int (- a) = SFopp (PyNum.exact_int a).
Proof. destruct a; [congruence | reflexivity | reflexivity]. Qed.

Lemma int_of_float_opp x :
  PyNum.int_of_float (SFopp x)
  = match PyNum.int_of_float x with inl e => inl e | inr d => inr (- d) end.
Proof.
  destruct x as [s | s | | s m e]; cbn [SFopp PyNum.int_of_float];
    try reflexivity.
  f_equal. destruct s; cbn [negb]; lia.
Qed.

(** [int((a / b) * c)] is odd in [a]. *)
Lemma scale_opp a b c :
  a <> 0 ->
  PyNum.scale (- a) b c
  = match PyNum.scale a b c with inl e => inl e | inr d => inr (- d) end.
Proof.
  intros Ha. unfold PyNum.scale, PyNum.truediv.
  destruct (b =? 0); [reflexivity |].
  rewrite (exact_int_opp a Ha). unfold PyNum.prec, PyNum.emax.
  rewrite SFdiv_opp_l.
  destruct (SFdiv 53 1024 (PyNum.exact_int a) (PyNum.exact_int b))
    as [sq | sq | | sq mq eq]; cbn [SFopp rbind]; try reflexivity.
  - unfold PyNum.float_mul_int.
    destruct (PyNum.float_of_int c) as [e | y]; cbn [rbind]; [reflexivity |].
    unfold PyNum.prec, PyNum.emax.
    change (S754_zero (negb sq)) with (SFopp (S754_zero sq)).
    rewrite SFmul_opp_l. apply int_of_float_opp.
  - unfold PyNum.float_mul_int.
    destruct (PyNum.float_of_int c) as [e | y]; cbn [rbind]; [reflexivity |].
    unfold PyNum.prec, PyNum.emax.
    change (S754_finite (negb sq) mq eq) with (SFopp (S754_finite sq mq eq)).
    rewrite SFmul_opp_l. apply int_of_float_opp.
Qed.

(** X15: [resize_image] itself does not reject a negative size.  On an
    image with positive dimensions a negative size is never skipped, whether
    or not its absolute value is above the original dimension: it resolves
    to itself on the chosen axis and, on the other axis, to minus the value
    computed for its absolute value (or raises what that computation
    raises).  The loop never records it as skipped; the pair goes to the
    resampler as it is: when the resampler refuses it the iteration ends
    with the resampler's exception and no file is written, and when the
    resampler returns an image and the encoder accepts it, the file is
    written under the name made from the negative size. *)
Theorem negative_size_reaches_resampler `{PIL : Imaging}
    img orig_width orig_height output_dir base_name extension dimension quality
    size w :
  size < 0 -> 0 < orig_width -> 0 < orig_height ->
  let limit := axis_limit dimension orig_width orig_height in
  let other := axis_other dimension orig_width orig_height in
  let one := resize_one img orig_width orig_height output_dir base_name
                        extension dimension quality in
  new_dimensions dimension size orig_width orig_height
  = match PyNum.scale (- size) limit other with
    | inl e => inl e
    | inr d => inr (if decide (dimension = "width")
                    then Dims size (- d) else Dims (- d) size)
    end
  /\ (forall reason,
        new_dimensions dimension size orig_width orig_height
        <> inr (Skip reason))
  /\ (forall s w', one size w <> (Return (inl s), w'))
  /\ (forall new_width new_height e,
        new_dimensions dimension size orig_width orig_height
        = inr (Dims new_width new_height) ->
        img_resize img (new_width, new_height) = inl e ->
        one size w
        = (Raise e, warned w (resize_warnings img (new_width, new_height)))
        /\ files (snd (one size w)) = files w)
  /\ (forall new_width new_height resized bytes,
        new_dimensions dimension size orig_width orig_height
        = inr (Dims new_width new_height) ->
        img_resize img (new_width, new_height) = inr resized ->
        img_save_jpeg (normalize_mode resized)
          (path_join output_dir (output_name base_name size extension)) quality
        = inr bytes ->
        files (snd (one size w))
        = files w ++ [(path_join output_dir
                         (output_name base_name size extension), bytes)]).
Proof.
  intros Hs How Hoh limit other one.
  assert (Hl : 0 < limit)
    by (unfold limit, axis_limit; destruct (decide (dimension = "width")); lia).
  assert (Hd : new_dimensions dimension size orig_width orig_height
               = match PyNum.scale (- size) limit other with
                 | inl e => inl e
                 | inr d => inr (if decide (dimension = "width")
                                 then Dims size (- d) else Dims (- d) size)
                 end).
  { rewrite new_dimensions_unfold. fold limit other.
    destruct (Z.gtb_spec size limit) as [Hgt | _]; [lia |].
    replace size with (- (- size)) at 1 by lia.
    rewrite scale_opp by lia.
    destruct (PyNum.scale (- size) limit other) as [e | d]; reflexivity. }
  split; [exact Hd |]. split; [| split; [| split]].
  - intros reason. rewrite Hd.
    destruct (PyNum.scale (- size) limit other) as [e | d]; [discriminate |].
    destruct (decide (dimension = "width")); discriminate.
  - intros s w' Hone. apply resize_one_inl in Hone as (Hgt & _). fold limit in Hgt.
    lia.
  - intros nw nh e Hdims He. unfold one.
    rewrite (resize_one_resampler_raises _ _ _ _ _ _ _ _ _ _ _ _ _ Hdims He).
    split; reflexivity.
  - intros nw nh resized bytes Hdims He Hsave.
    unfold one, resize_one, bind, lift, lib_warns.
    rewrite Hdims. simpl. rewrite He. simpl. rewrite Hsave. simpl.
    unfold get_file_size_kb, bind, getsize, lift. simpl.
    rewrite latest_app_last.
    destruct (PyNum.truediv bytes 1024); reflexivity.
Qed.

Lemma negative_size_reaches_resampler_witness :
  new_dimensions "width" (- 5000) 1920 1080 = inr (Dims (- 5000) (- 2812))
  /\ @resize_one (Demo.imaging (Demo.rgb 1920 1080))
       {| Demo.im_mode := "RGB"; Demo.im_size := (1920, 1080) |}
       1920 1080 "out" "photo" ".jpg" "width" 90 (- 5000) empty_world
     = (Raise (ValueError "height and width must be > 0"), empty_world).
Proof.
  set (PIL := Demo.imaging (Demo.rgb 1920 1080)).
  set (img := {| Demo.im_mode := "RGB"; Demo.im_size := (1920, 1080) |}).
  destruct (negative_size_reaches_resampler (PIL := PIL) img 1920 1080 "out"
              "photo" ".jpg" "width" 90 (- 5000) empty_world
              ltac:(lia) ltac:(lia) ltac:(lia)) as (Hd & _ & _ & Hraise & _).
  assert (Hscale : PyNum.scale (- - 5000) (axis_limit "width" 1920 1080)
                     (axis_other "width" 1920 1080) = inr 2812)
    by (vm_compute; reflexivity).
  rewrite Hscale in Hd. split; [exact Hd |].
  assert (He : @img_resize PIL img (- 5000, - 2812)
               = inl (ValueError "height and width must be > 0"))
    by (vm_compute; reflexivity).
  destruct (Hraise _ _ _ Hd He) as [Hone _]. exact Hone.
Defined.

(** X16: the size 0 is not skipped either: on an image whose dimensions are
    positive and below [2^53] it resolves to a width and a height of 0, which
    go to the resampler as they are. *)
Theorem zero_size_resolves_to_zero dimension orig_width orig_height :
  0 < orig_width < two53 ->
  0 < orig_height < two53 ->
  new_dimensions dimension 0 orig_width orig_height = inr (Dims 0 0).
Proof.
  intros How Hoh.
  rewrite new_dimensions_unfold.
  assert (Hl : 0 < axis_limit dimension orig_width orig_height)
    by (unfold axis_limit; destruct (decide (dimension = "width")); lia).
  assert (Ho : 0 < axis_other dimension orig_width orig_height < two53)
    by (unfold axis_other; destruct (decide (dimension = "width")); lia).
  destruct (Z.gtb_spec 0 (axis_limit dimension orig_width orig_height));
    [lia |].
  destruct (float_of_int_exact _ Ho) as (m & e & Hf & _).
  unfold PyNum.scale, PyNum.truediv.
  replace (axis_limit dimension orig_width orig_height =? 0) with false
    by (symmetry; apply Z.eqb_neq; lia).
  destruct (axis_limit dimension orig_width orig_height) as [| pl | pl];
    try lia.
  cbn [PyNum.exact_int SFdiv xorb rbind].
  unfold PyNum.float_mul_int. rewrite Hf. cbn [rbind SFmul xorb PyNum.int_of_float].
  destruct (decide (dimension = "width")); reflexivity.
Qed.

Lemma zero_size_resolves_to_zero_witness :
  new_dimensions "height" 0 1920 1080 = inr (Dims 0 0).
Proof.
  exact (zero_size_resolves_to_zero "height" 1920 1080
           ltac:(unfold two53; lia) ltac:(unfold two53; lia)).
Defined.
